(** * InsightForge BI assistant: statistics index and keyword retriever

    A shallow embedding of [load_and_process_data] and [custom_retriever]
    of [src/app.py], followed by the properties the specification states
    about them.

    Modelling conventions.
    - A Python [str] is a [string] of UTF-8 bytes.  Byte-wise lexicographic
      comparison of UTF-8 agrees with Python's code-point comparison.
    - A Python [float] is a [pyfloat]: an exact rational ([Qc]) or [NaN].
      Sums, means and comparisons are exact; binary rounding is outside
      the model.
    - A Python [dict] is an association list in insertion order.
    - A pandas [DataFrame] is the list of its rows, in file order.  Every
      cell of a numeric or label column holds a value: missing cells are
      outside the model. *)

From Stdlib Require Import List String Ascii Bool Arith ZArith Lia.
From Stdlib Require Import QArith Qabs Qcanon Qcabs Lqa.
From Stdlib Require Import Permutation Sorted.
From Stdlib Require Import Decimal DecimalString DecimalNat.
From ExtLib Require Import Structures.Monad Structures.MonadState
  Structures.MonadExc Data.Monads.StateMonad Data.Monads.EitherMonad.
Import ListNotations.
Import MonadNotation.

Local Open Scope monad_scope.
Local Open Scope list_scope.
Local Open Scope string_scope.

(** ** Python built-ins used by the program *)

Module Py.

(** [str.lower] on the ASCII range.  Outside ASCII the bytes are kept: the
    only non-ASCII characters whose lowercase form contains an ASCII
    letter are U+0130 (giving [i] followed by U+0307) and U+212A (giving
    [k]); no trigger keyword of the retriever contains [k] or ends in [i],
    so keyword matching is unaffected. *)
Definition lower_char (c : ascii) : ascii :=
  let n := nat_of_ascii c in
  if (65 <=? n)%nat && (n <=? 90)%nat then ascii_of_nat (n + 32) else c.

Fixpoint lower (s : string) : string :=
  match s with
  | EmptyString => EmptyString
  | String c t => String (lower_char c) (lower t)
  end.

(** [needle in hay] for two strings: substring containment. *)
Fixpoint contains (needle hay : string) : bool :=
  match hay with
  | EmptyString => prefix needle EmptyString
  | String _ t => prefix needle hay || contains needle t
  end.

(** [any(word in text for word in words)]. *)
Definition any_in (words : list string) (text : string) : bool :=
  existsb (fun word => contains word text) words.

(** [sep.join(parts)]. *)
Definition join (sep : string) (parts : list string) : string :=
  String.concat sep parts.

(** A float: exact rational or not-a-number. *)
Inductive pyfloat : Type :=
| Finite (q : Qc)
| NaN.

(** [int(v)] on a finite float: truncation toward zero. *)
Definition int_of_Qc (q : Qc) : Z := Z.quot (Qnum q) (Zpos (Qden q)).

(** [str(n)] / [repr(n)] for an integer. *)
Definition repr_int (z : Z) : string :=
  NilEmpty.string_of_int (Z.to_int z).

Definition str_nat (n : nat) : string :=
  NilEmpty.string_of_uint (Nat.to_uint n).

Fixpoint zeros (n : nat) : string :=
  match n with
  | O => EmptyString
  | S k => String "0" (zeros k)
  end.

(** [s.zfill(w)] for a digit string. *)
Definition zfill (w : nat) (s : string) : string :=
  zeros (w - String.length s) ++ s.

(** Thousands separators of the [,] format option. *)
Fixpoint commas (digits : string) : string :=
  match digits with
  | EmptyString => EmptyString
  | String c t =>
      String c
        (if (0 <? String.length t)%nat && (String.length t mod 3 =? 0)%nat
         then "," ++ commas t else commas t)
  end.

(** Rounding of a non-negative rational to the nearest integer, ties to
    even: the rounding of the [f] presentation type. *)
Definition round_half_even (q : Q) : Z :=
  let n := Qnum q in
  let d := Zpos (Qden q) in
  let f := (n / d)%Z in
  match (2 * (n mod d) ?= d)%Z with
  | Lt => f
  | Gt => (f + 1)%Z
  | Eq => if Z.even f then f else (f + 1)%Z
  end.

(** [format(x, ",.pf")] when [grouping], [format(x, ".pf")] otherwise. *)
Definition format_f (grouping : bool) (p : nat) (x : pyfloat) : string :=
  match x with
  | NaN => "nan"
  | Finite q =>
      let scale := (10 ^ Z.of_nat p)%Z in
      let scaled := round_half_even (Qabs q * inject_Z scale) in
      let ipart := str_nat (Z.to_nat (scaled / scale)) in
      let fpart := zfill p (str_nat (Z.to_nat (scaled mod scale))) in
      (if Qlt_le_dec q 0 then "-" else EmptyString)
        ++ (if grouping then commas ipart else ipart)
        ++ (match p with O => EmptyString | S _ => "." ++ fpart end)
  end.

(** [repr] of a dict, given the [repr] of its keys and values. *)
Definition repr_dict {K V : Type} (rk : K -> string) (rv : V -> string)
    (d : list (K * V)) : string :=
  "{" ++ join ", " (map (fun kv => rk (fst kv) ++ ": " ++ rv (snd kv)) d) ++ "}".

(** [d[k] = v] on an insertion-ordered dict: an existing key keeps its
    position and takes the new value, a new key goes last. *)
Fixpoint dict_set {V : Type} (d : list (string * V)) (k : string) (v : V)
    : list (string * V) :=
  match d with
  | [] => [(k, v)]
  | (k', v') :: t =>
      if String.eqb k' k then (k', v) :: t else (k', v') :: dict_set t k v
  end.

(** [dict(items)] and dict comprehensions: insertion of the pairs in order. *)
Definition dict_of_items {V : Type} (items : list (string * V))
    : list (string * V) :=
  fold_left (fun d kv => dict_set d (fst kv) (snd kv)) items [].

(** [xs[-n:]] for [n > 0]: the last [n] elements, or all of them. *)
Definition last_n {A : Type} (n : nat) (xs : list A) : list A :=
  skipn (List.length xs - n) xs.

End Py.

Import Py.

(** ** pandas operations used by the builder *)

Module Pandas.

Local Open Scope list_scope.

(** Exceptions raised inside the [try] block of [load_and_process_data]. *)
Inductive PyExc : Type :=
| DateParseError (position : nat)
    (* pd.to_datetime: the cell at [position] is not a date *)
| ArgmaxOfEmpty.
    (* Series.idxmax: "attempt to get argmax of an empty sequence" *)

Record Timestamp : Type := { year : nat; month : nat; day : nat }.

(** A cell of the [Date] column as read from the file: text that
    [pd.to_datetime] turns into a timestamp, or text that it rejects. *)
Inductive DateCell : Type :=
| DateText (t : Timestamp)
| Unparseable.

(** A monthly period, the result of [dt.to_period('M')]. *)
Record Period : Type := { p_year : nat; p_month : nat }.

Definition to_period_M (t : Timestamp) : Period :=
  {| p_year := year t; p_month := month t |}.

(** [str(period)] at monthly frequency: [%Y-%m]. *)
Definition str_period (p : Period) : string :=
  (zfill 4 (str_nat (p_year p)) ++ "-" ++ zfill 2 (str_nat (p_month p)))%string.

(** Ordering of group keys: pandas sorts them ([sort=True]). *)
Class Ord (K : Type) := cmp : K -> K -> comparison.

#[export] Instance Ord_string : Ord string := String.compare.

#[export] Instance Ord_Period : Ord Period := fun p q =>
  match Nat.compare (p_year p) (p_year q) with
  | Eq => Nat.compare (p_month p) (p_month q)
  | c => c
  end.

(** [pd.to_datetime(column)]: converts the cells in order and raises at
    the first one it cannot parse. *)
Fixpoint to_datetime_from (pos : nat) (cells : list DateCell)
    : PyExc + list Timestamp :=
  match cells with
  | [] => inr []
  | Unparseable :: _ => inl (DateParseError pos)
  | DateText t :: rest =>
      match to_datetime_from (S pos) rest with
      | inl e => inl e
      | inr ts => inr (t :: ts)
      end
  end.

Definition to_datetime (cells : list DateCell) : PyExc + list Timestamp :=
  to_datetime_from 0 cells.

Definition sum_Qc (xs : list Qc) : Qc := fold_right Qcplus 0%Qc xs.

Definition Qc_of_nat (n : nat) : Qc := Q2Qc (inject_Z (Z.of_nat n)).

Definition Qcltb (x y : Qc) : bool :=
  match Qccompare x y with Lt => true | _ => false end.

(** [Series.mean()]: NaN on an empty series. *)
Definition mean (xs : list Qc) : pyfloat :=
  match xs with
  | [] => NaN
  | _ => Finite (sum_Qc xs / Qc_of_nat (List.length xs))%Qc
  end.

Fixpoint insert_sorted (x : Qc) (xs : list Qc) : list Qc :=
  match xs with
  | [] => [x]
  | y :: t => if Qcltb y x then y :: insert_sorted x t else x :: xs
  end.

Definition sort_values (xs : list Qc) : list Qc :=
  fold_right insert_sorted [] xs.

(** [Series.median()]: middle of the sorted values, the mean of the two
    middle ones for an even count, NaN on an empty series. *)
Definition median (xs : list Qc) : pyfloat :=
  let s := sort_values xs in
  let n := List.length s in
  match n with
  | O => NaN
  | _ =>
      if Nat.even n
      then Finite ((nth (n / 2 - 1) s 0 + nth (n / 2) s 0) / Qc_of_nat 2)%Qc
      else Finite (nth (n / 2) s 0%Qc)
  end.

(** The square root of a float, kept symbolic: amounts are exact
    rationals and their roots need not be. *)
Inductive pysqrt : Type := SqrtOf (radicand : pyfloat).

(** [Series.std()]: root of the unbiased variance ([ddof=1]), NaN for
    fewer than two values. *)
Definition std (xs : list Qc) : pysqrt :=
  match xs with
  | [] | [_] => SqrtOf NaN
  | _ =>
      let n := Qc_of_nat (List.length xs) in
      let m := (sum_Qc xs / n)%Qc in
      SqrtOf (Finite
        (sum_Qc (map (fun x => (x - m) * (x - m)) xs) / (n - 1))%Qc)
  end.

Section GroupBy.
Context {R K : Type} {ordK : Ord K}.

Definition key_eqb (a b : K) : bool :=
  match cmp a b with Eq => true | _ => false end.

(** Insertion of a key into the sorted list of distinct keys. *)
Fixpoint insert_key (k : K) (ks : list K) : list K :=
  match ks with
  | [] => [k]
  | x :: t =>
      match cmp k x with
      | Lt => k :: ks
      | Eq => ks
      | Gt => x :: insert_key k t
      end
  end.

Definition unique_sorted (ks : list K) : list K :=
  fold_right insert_key [] ks.

(** [df.groupby(key)[val].sum()]: one entry per distinct key, keys in
    ascending order, each with the sum of [val] over its rows. *)
Definition groupby_sum (key : R -> K) (val : R -> Qc) (df : list R)
    : list (K * Qc) :=
  map (fun k =>
         (k, sum_Qc (map val (filter (fun r => key_eqb (key r) k) df))))
      (unique_sorted (map key df)).

(** [Series.idxmax()]: the label of the first occurrence of the
    maximum; raises on an empty series. *)
Fixpoint idxmax_from (best : K) (bestv : Qc) (s : list (K * Qc)) : K :=
  match s with
  | [] => best
  | (k, v) :: t =>
      if Qcltb bestv v then idxmax_from k v t else idxmax_from best bestv t
  end.

Definition idxmax (s : list (K * Qc)) : PyExc + K :=
  match s with
  | [] => inl ArgmaxOfEmpty
  | (k, v) :: t => inr (idxmax_from k v t)
  end.
End GroupBy.

End Pandas.

Import Pandas.

(** ** Part 1 of the program: the statistics index *)

(** A row of [sales_data.csv]; [D] is the type of the [Date] column,
    [DateCell] as read and [Timestamp] after [pd.to_datetime]. *)
Record Row (D : Type) : Type := {
  Date : D;
  Product : string;
  Region : string;
  Sales : Qc;
  Customer_Age : Z;
  Customer_Satisfaction : Qc
}.

Arguments Date {D}.
Arguments Product {D}.
Arguments Region {D}.
Arguments Sales {D}.
Arguments Customer_Age {D}.
Arguments Customer_Satisfaction {D}.

Definition DataFrame : Type := list (Row Timestamp).

(** The [stats] dict. *)
Record Stats : Type := {
  total_revenue : pyfloat;
  average_transaction : pyfloat;
  median_sales : pyfloat;
  std_dev : pysqrt;
  best_selling_product : string;
  sales_by_product : list (string * Qc);
  sales_by_region : list (string * Qc);
  monthly_trend : list (string * Z);
  avg_customer_age : pyfloat;
  avg_satisfaction : pyfloat
}.

(** [df['Date'] = pd.to_datetime(df['Date'])]. *)
Definition set_Date {D E : Type} (r : Row D) (d : E) : Row E :=
  {| Date := d; Product := Product r; Region := Region r; Sales := Sales r;
     Customer_Age := Customer_Age r;
     Customer_Satisfaction := Customer_Satisfaction r |}.

Definition assign_Date (csv : list (Row DateCell)) (dates : list Timestamp)
    : DataFrame :=
  map (fun rd => set_Date (fst rd) (snd rd)) (combine csv dates).

(** The body of the [try] block, after [pd.read_csv] has returned. *)
Definition try_body (csv : list (Row DateCell)) : PyExc + (DataFrame * Stats) :=
  dates <- to_datetime (map Date csv) ;;
  let df := assign_Date csv dates in
  best <- idxmax (groupby_sum Product Sales df) ;;
  ret (df,
       {| total_revenue := Finite (sum_Qc (map Sales df));
          average_transaction := mean (map Sales df);
          median_sales := median (map Sales df);
          std_dev := std (map Sales df);
          best_selling_product := best;
          sales_by_product := groupby_sum Product Sales df;
          sales_by_region := groupby_sum Region Sales df;
          monthly_trend :=
            dict_of_items
              (map (fun kv => (str_period (fst kv), int_of_Qc (snd kv)))
                   (groupby_sum (fun r => to_period_M (Date r)) Sales df));
          avg_customer_age :=
            mean (map (fun r => Q2Qc (inject_Z (Customer_Age r))) df);
          avg_satisfaction := mean (map Customer_Satisfaction df) |}).

(** What [st.error] shows before [st.stop()] halts the script. *)
Inductive StError : Type :=
| CsvNotFound                       (* except FileNotFoundError *)
| ErrorLoadingData (e : PyExc).     (* except Exception as e *)

Inductive Outcome (A : Type) : Type :=
| Returned (a : A)
| Stopped (shown : StError).

Arguments Returned {A}.
Arguments Stopped {A}.

(** [load_and_process_data()]; [file] is the content of
    [sales_data.csv]: [None] when the file does not exist, the rows below
    the header line otherwise. *)
Definition load_and_process_data (file : option (list (Row DateCell)))
    : Outcome (DataFrame * Stats) :=
  match file with
  | None => Stopped CsvNotFound
  | Some csv =>
      match try_body csv with
      | inr result => Returned result
      | inl e => Stopped (ErrorLoadingData e)
      end
  end.

(** ** Part 3 of the program: the retriever *)

(** The objects the call can reach: the caller's [query] and [stats],
    and the local list [context_parts] that it appends to. *)
Record Env : Type := {
  query : string;
  stats : Stats;
  context_parts : list string
}.

Definition newline : string := String (ascii_of_nat 10) EmptyString.

Section Retriever.
(** [repr] of a [str] and of a [float] inside a printed dict: Python
    built-ins, taken as given. *)
Variable repr_str : string -> string.
Variable repr_float : Qc -> string.

(** [context_parts.append(f"...")], the f-string reading [stats]. *)
Definition append_part (line : Stats -> string) : state Env unit :=
  e <- get ;;
  put {| query := query e; stats := stats e;
         context_parts := (context_parts e ++ [line (stats e)])%list |}.

Definition revenue_line (s : Stats) : string :=
  "Total Revenue: $" ++ format_f true 2 (total_revenue s).

Definition average_transaction_line (s : Stats) : string :=
  "Average Transaction: $" ++ format_f true 2 (average_transaction s).

Definition average_age_line (s : Stats) : string :=
  "Average Customer Age: " ++ format_f false 1 (avg_customer_age s)
    ++ " years".

Definition average_satisfaction_line (s : Stats) : string :=
  "Average Satisfaction: " ++ format_f false 2 (avg_satisfaction s)
    ++ "/5.0".

Definition best_product_line (s : Stats) : string :=
  "Best Selling Product: " ++ best_selling_product s.

Definition sales_by_product_line (s : Stats) : string :=
  "Sales by Product: "
    ++ repr_dict repr_str repr_float (sales_by_product s).

Definition region_line (s : Stats) : string :=
  "Sales by Region: " ++ repr_dict repr_str repr_float (sales_by_region s).

(** [list(stats['monthly_trend'].items())[-6:]]. *)
Definition recent_months (s : Stats) : list (string * Z) :=
  last_n 6 (monthly_trend s).

Definition trend_line (s : Stats) : string :=
  "Recent 6 Months Trend: "
    ++ repr_dict repr_str repr_int (dict_of_items (recent_months s)).

Definition overview_line (s : Stats) : string :=
  "Overview: Total Revenue $" ++ format_f true 2 (total_revenue s)
    ++ ", Top Product: " ++ best_selling_product s.

Definition revenue_words : list string := ["total"; "revenue"; "overall"; "sum"].
Definition average_words : list string := ["average"; "mean"; "avg"].
Definition product_words : list string := ["product"; "widget"; "best"; "top"].
Definition region_words : list string := ["region"; "location"; "area"; "where"].
Definition trend_words : list string := ["trend"; "month"; "time"; "period"].

Definition when (b : bool) (body : state Env unit) : state Env unit :=
  if b then body else ret tt.

(** The statements of [custom_retriever], run on the reachable objects. *)
Definition custom_retriever_body : state Env string :=
  e <- get ;;
  let query_lower := lower (query e) in
  when (any_in revenue_words query_lower)
    (append_part revenue_line) ;;
  when (any_in average_words query_lower)
    (append_part average_transaction_line ;;
     append_part average_age_line ;;
     append_part average_satisfaction_line) ;;
  when (any_in product_words query_lower)
    (append_part best_product_line ;;
     append_part sales_by_product_line) ;;
  when (any_in region_words query_lower)
    (append_part region_line) ;;
  when (any_in trend_words query_lower)
    (append_part trend_line) ;;
  e' <- get ;;
  when (match context_parts e' with [] => true | _ :: _ => false end)
    (append_part overview_line) ;;
  e'' <- get ;;
  ret (join newline (context_parts e'')).

Definition run_retriever (q : string) (s : Stats) : string * Env :=
  runState custom_retriever_body
    {| query := q; stats := s; context_parts := [] |}.

(** [custom_retriever(query, stats)]. *)
Definition custom_retriever (q : string) (s : Stats) : string :=
  fst (run_retriever q s).

(** The list [context_parts] at the [return] statement. *)
Definition final_parts (q : string) (s : Stats) : list string :=
  context_parts (snd (run_retriever q s)).
End Retriever.

(** * Properties *)

(** ** Ordered keys *)

Class OrdLaws (K : Type) {ordK : Ord K} : Prop := {
  cmp_eq : forall a b : K, cmp a b = Eq -> a = b;
  cmp_refl : forall a : K, cmp a a = Eq;
  cmp_antisym : forall a b : K, cmp b a = CompOpp (cmp a b);
  cmp_trans : forall a b c : K, cmp a b = Lt -> cmp b c = Lt -> cmp a c = Lt
}.

Lemma string_compare_refl (s : string) : String.compare s s = Eq.
Proof.
  induction s as [|c s IH]; simpl; [reflexivity|].
  unfold Ascii.compare. now rewrite N.compare_refl.
Qed.

Lemma string_compare_trans (a b c : string) :
  String.compare a b = Lt -> String.compare b c = Lt -> String.compare a c = Lt.
Proof.
  revert b c.
  induction a as [|x a IH]; intros [|y b] [|z c]; simpl; try congruence.
  unfold Ascii.compare.
  destruct (N.compare_spec (N_of_ascii x) (N_of_ascii y)) as [Exy|Lxy|Gxy];
    try discriminate;
    destruct (N.compare_spec (N_of_ascii y) (N_of_ascii z)) as [Eyz|Lyz|Gyz];
    try discriminate; intros Hab Hbc.
  - rewrite Exy, Eyz, N.compare_refl. eauto.
  - rewrite Exy. now apply N.compare_lt_iff in Lyz as ->.
  - rewrite <- Eyz. now apply N.compare_lt_iff in Lxy as ->.
  - assert (H : (N_of_ascii x < N_of_ascii z)%N) by lia.
    now apply N.compare_lt_iff in H as ->.
Qed.

#[export] Instance OrdLaws_string : OrdLaws string.
Proof.
  split.
  - exact String.compare_eq_iff.
  - exact string_compare_refl.
  - intros a b. apply String.compare_antisym.
  - exact string_compare_trans.
Qed.

#[export] Instance OrdLaws_Period : OrdLaws Period.
Proof.
  split; unfold cmp, Ord_Period.
  - intros [y1 m1] [y2 m2]; simpl.
    destruct (Nat.compare_spec y1 y2); try discriminate.
    intros H0 % Nat.compare_eq_iff. congruence.
  - intros [y m]; simpl. now rewrite !Nat.compare_refl.
  - intros [y1 m1] [y2 m2]; simpl.
    rewrite (Nat.compare_antisym y1 y2), (Nat.compare_antisym m1 m2).
    now destruct (Nat.compare y1 y2).
  - intros [y1 m1] [y2 m2] [y3 m3]; simpl.
    destruct (Nat.compare_spec y1 y2); try discriminate;
      destruct (Nat.compare_spec y2 y3); try discriminate;
      destruct (Nat.compare_spec y1 y3); try lia; trivial.
    rewrite !Nat.compare_lt_iff. lia.
Qed.

Section KeyFacts.
Context {K : Type} {ordK : Ord K} {lawsK : OrdLaws K}.

Definition klt (a b : K) : Prop := cmp a b = Lt.

Lemma klt_irrefl (a : K) : ~ klt a a.
Proof. unfold klt. rewrite cmp_refl. discriminate. Qed.

Lemma klt_trans (a b c : K) : klt a b -> klt b c -> klt a c.
Proof. apply cmp_trans. Qed.

Lemma key_eqb_eq (a b : K) : key_eqb a b = true <-> a = b.
Proof.
  unfold key_eqb. split.
  - destruct (cmp a b) eqn:E; try discriminate. intros _. now apply cmp_eq.
  - intros ->. now rewrite cmp_refl.
Qed.

Lemma key_eqb_neq (a b : K) : key_eqb a b = false <-> a <> b.
Proof.
  rewrite <- key_eqb_eq. destruct (key_eqb a b); split; congruence.
Qed.

Lemma cmp_Gt_klt (a b : K) : cmp a b = Gt -> klt b a.
Proof. unfold klt. rewrite (cmp_antisym a b). now intros ->. Qed.

Lemma In_insert_key (x k : K) (ks : list K) :
  In x (insert_key k ks) <-> x = k \/ In x ks.
Proof.
  induction ks as [|y t IH]; simpl.
  - intuition.
  - destruct (cmp k y) eqn:E; simpl.
    + apply cmp_eq in E. subst y. intuition.
    + intuition.
    + rewrite IH. intuition.
Qed.

Lemma In_unique_sorted (x : K) (ks : list K) :
  In x (unique_sorted ks) <-> In x ks.
Proof.
  induction ks as [|k t IH]; simpl; [reflexivity|].
  rewrite In_insert_key, IH. intuition.
Qed.

Lemma insert_key_Sorted (k : K) (ks : list K) :
  Sorted klt ks -> Sorted klt (insert_key k ks).
Proof.
  induction 1 as [|y t St IH Hd]; simpl.
  - repeat constructor.
  - destruct (cmp k y) eqn:E.
    + now constructor.
    + constructor; [now constructor | now constructor].
    + constructor; [exact IH|].
      destruct t as [|z t']; simpl.
      * constructor. now apply cmp_Gt_klt.
      * destruct (cmp k z) eqn:E'; constructor.
        -- now inversion Hd.
        -- now apply cmp_Gt_klt.
        -- now inversion Hd.
Qed.

Lemma unique_sorted_Sorted (ks : list K) : Sorted klt (unique_sorted ks).
Proof.
  induction ks; simpl; [constructor | now apply insert_key_Sorted].
Qed.

Lemma unique_sorted_StronglySorted (ks : list K) :
  StronglySorted klt (unique_sorted ks).
Proof.
  apply Sorted_StronglySorted; [exact klt_trans | apply unique_sorted_Sorted].
Qed.

Lemma StronglySorted_NoDup (ks : list K) : StronglySorted klt ks -> NoDup ks.
Proof.
  induction 1 as [|a l Hs IH Hall]; constructor; trivial.
  intros Hin. rewrite Forall_forall in Hall.
  exact (klt_irrefl a (Hall a Hin)).
Qed.

(** A strictly ascending list is determined by its elements. *)
Lemma StronglySorted_ext (l1 l2 : list K) :
  StronglySorted klt l1 -> StronglySorted klt l2 ->
  (forall x, In x l1 <-> In x l2) -> l1 = l2.
Proof.
  intros S1. revert l2.
  induction S1 as [|a t1 S1 IH H1]; intros l2 S2 Hin.
  - destruct l2 as [|b t2]; trivial.
    destruct (proj2 (Hin b) (or_introl eq_refl)).
  - destruct S2 as [|b t2 S2 H2].
    + destruct (proj1 (Hin a) (or_introl eq_refl)).
    + rewrite Forall_forall in H1, H2.
      assert (Hab : a = b).
      { destruct (proj1 (Hin a) (or_introl eq_refl)) as [E|Ia]; [congruence|].
        destruct (proj2 (Hin b) (or_introl eq_refl)) as [E|Ib]; [congruence|].
        exfalso. apply (klt_irrefl a).
        apply klt_trans with b; auto. }
      subst b. f_equal. apply IH; trivial.
      intros x; split; intros Hx.
      * destruct (proj1 (Hin x) (or_intror Hx)) as [E|I]; trivial.
        subst x. exfalso. exact (klt_irrefl a (H1 a Hx)).
      * destruct (proj2 (Hin x) (or_intror Hx)) as [E|I]; trivial.
        subst x. exfalso. exact (klt_irrefl a (H2 a Hx)).
Qed.

Lemma unique_sorted_ext (l1 l2 : list K) :
  (forall x, In x l1 <-> In x l2) -> unique_sorted l1 = unique_sorted l2.
Proof.
  intros H. apply StronglySorted_ext;
    try apply unique_sorted_StronglySorted.
  intros x. now rewrite !In_unique_sorted.
Qed.

Lemma unique_sorted_nonempty (ks : list K) :
  ks <> [] -> unique_sorted ks <> [].
Proof.
  destruct ks as [|k t]; [congruence|]. intros _ E.
  assert (H : In k (unique_sorted (k :: t)))
    by (apply In_unique_sorted; now left).
  rewrite E in H. destruct H.
Qed.
End KeyFacts.

(** ** Sums *)

Lemma sum_Qc_app (xs ys : list Qc) :
  sum_Qc (xs ++ ys)%list = (sum_Qc xs + sum_Qc ys)%Qc.
Proof.
  induction xs as [|x xs IH]; simpl.
  - now rewrite Qcplus_0_l.
  - rewrite IH. apply Qcplus_assoc.
Qed.

Lemma sum_Qc_Permutation (xs ys : list Qc) :
  Permutation xs ys -> sum_Qc xs = sum_Qc ys.
Proof.
  induction 1 as [|x l l' _ IH|x y l|l l' l'' _ IH1 _ IH2]; simpl.
  - reflexivity.
  - now rewrite IH.
  - rewrite !Qcplus_assoc. f_equal. apply Qcplus_comm.
  - congruence.
Qed.

Lemma Permutation_filter_compat {A : Type} (f : A -> bool) (l l' : list A) :
  Permutation l l' -> Permutation (filter f l) (filter f l').
Proof.
  induction 1 as [|x l l' _ IH|x y l|l l' l'' _ IH1 _ IH2]; simpl.
  - constructor.
  - destruct (f x); auto.
  - destruct (f x), (f y); auto. constructor.
  - now transitivity (filter f l').
Qed.

Lemma sum_Qc_zero {A : Type} (l : list A) :
  sum_Qc (map (fun _ => 0%Qc) l) = 0%Qc.
Proof.
  induction l; simpl; trivial. rewrite IHl. apply Qcplus_0_l.
Qed.

Lemma sum_Qc_plus {A : Type} (f g : A -> Qc) (l : list A) :
  sum_Qc (map (fun a => f a + g a)%Qc l)
  = (sum_Qc (map f l) + sum_Qc (map g l))%Qc.
Proof.
  induction l as [|a l IH]; simpl.
  - now rewrite Qcplus_0_l.
  - rewrite IH. ring.
Qed.

(** ** Grouping *)

Section GroupFacts.
Context {R K : Type} {ordK : Ord K} {lawsK : OrdLaws K}.
Variable key : R -> K.
Variable val : R -> Qc.

(** The sum of [val] over the rows of [df] whose key is [k]. *)
Definition group_total (k : K) (df : list R) : Qc :=
  sum_Qc (map val (filter (fun r => key_eqb (key r) k) df)).

Lemma groupby_sum_keys (df : list R) :
  map fst (groupby_sum key val df) = unique_sorted (map key df).
Proof.
  unfold groupby_sum. rewrite map_map. simpl. apply map_id.
Qed.

Lemma In_groupby_sum (k : K) (v : Qc) (df : list R) :
  In (k, v) (groupby_sum key val df)
  <-> In k (map key df) /\ v = group_total k df.
Proof.
  unfold groupby_sum. rewrite in_map_iff. split.
  - intros (k' & E & Hin). inversion E; subst.
    split; [now apply In_unique_sorted | reflexivity].
  - intros [Hin ->]. exists k. split; trivial. now apply In_unique_sorted.
Qed.

Lemma groupby_sum_nonempty (df : list R) :
  df <> [] -> groupby_sum key val df <> [].
Proof.
  intros Hne E. apply (f_equal (map fst)) in E.
  rewrite groupby_sum_keys in E. simpl in E.
  revert E. apply unique_sorted_nonempty.
  destruct df; [congruence | discriminate].
Qed.

Lemma groupby_sum_Permutation (df df' : list R) :
  Permutation df df' -> groupby_sum key val df = groupby_sum key val df'.
Proof.
  intros P. unfold groupby_sum.
  rewrite (unique_sorted_ext (map key df) (map key df')).
  - apply map_ext. intros k. f_equal.
    apply sum_Qc_Permutation, Permutation_map.
    now apply Permutation_filter_compat.
  - intros x. split; apply Permutation_in; [|symmetry];
      now apply Permutation_map.
Qed.

Lemma sum_indicator (k0 : K) (a : Qc) (ks : list K) :
  NoDup ks -> In k0 ks ->
  sum_Qc (map (fun k => if key_eqb k0 k then a else 0%Qc) ks) = a.
Proof.
  induction 1 as [|k ks Hk Hnd IH]; simpl; [tauto|].
  intros [E|Hin].
  - subst k0. rewrite (proj2 (key_eqb_eq k k) eq_refl).
    rewrite (map_ext_in _ (fun _ => 0%Qc)).
    + rewrite sum_Qc_zero. apply Qcplus_0_r.
    + intros k' Hk'. destruct (key_eqb k k') eqn:E; trivial.
      apply key_eqb_eq in E. congruence.
  - destruct (key_eqb k0 k) eqn:E.
    + apply key_eqb_eq in E. congruence.
    + rewrite IH by trivial. apply Qcplus_0_l.
Qed.

(** Distinct keys that cover the rows partition the total. *)
Lemma group_totals_partition (ks : list K) (df : list R) :
  NoDup ks -> (forall r, In r df -> In (key r) ks) ->
  sum_Qc (map (fun k => group_total k df) ks) = sum_Qc (map val df).
Proof.
  intros Hnd. induction df as [|r df IH]; intros Hcover.
  - unfold group_total. simpl. apply sum_Qc_zero.
  - rewrite (map_ext _
      (fun k => ((if key_eqb (key r) k then val r else 0)
                 + group_total k df)%Qc)).
    + rewrite sum_Qc_plus, sum_indicator, IH; trivial.
      * intros r' Hr'. apply Hcover. now right.
      * apply Hcover. now left.
    + intros k. unfold group_total. simpl.
      destruct (key_eqb (key r) k); simpl; trivial.
      now rewrite Qcplus_0_l.
Qed.

Lemma groupby_sum_total (df : list R) :
  sum_Qc (map snd (groupby_sum key val df)) = sum_Qc (map val df).
Proof.
  unfold groupby_sum. rewrite map_map. simpl.
  apply group_totals_partition.
  - apply StronglySorted_NoDup, unique_sorted_StronglySorted.
  - intros r Hr. apply In_unique_sorted. now apply in_map.
Qed.
End GroupFacts.

(** ** First maximum *)

Lemma Qcltb_lt (x y : Qc) : Qcltb x y = true <-> (x < y)%Qc.
Proof.
  unfold Qcltb. rewrite Qclt_alt.
  destruct (x ?= y)%Qc; split; congruence.
Qed.

Lemma Qcltb_ge (x y : Qc) : Qcltb x y = false <-> (y <= x)%Qc.
Proof.
  split.
  - intros H. apply Qcnot_lt_le. rewrite <- Qcltb_lt. congruence.
  - intros H. destruct (Qcltb x y) eqn:E; trivial.
    apply Qcltb_lt in E. now apply Qcle_not_lt in H.
Qed.

Section IdxmaxFacts.
Context {K : Type}.

(** [idxmax_from] returns the label of an entry that is strictly above
    everything before it and at least everything after it. *)
Lemma idxmax_from_spec (t : list (K * Qc)) :
  forall (best : K) (bestv : Qc),
  exists v pre post,
    (best, bestv) :: t = (pre ++ (idxmax_from best bestv t, v) :: post)%list
    /\ Forall (fun p => (snd p < v)%Qc) pre
    /\ Forall (fun p => (snd p <= v)%Qc) post.
Proof.
  induction t as [|[k x] t IH]; intros best bestv; simpl.
  - exists bestv, [], []. repeat split; constructor.
  - destruct (Qcltb bestv x) eqn:E.
    + apply Qcltb_lt in E.
      destruct (IH k x) as (v & pre & post & Heq & Hpre & Hpost).
      exists v, ((best, bestv) :: pre), post.
      split; [simpl; now rewrite <- Heq|]. split; trivial.
      constructor; trivial. simpl.
      destruct pre as [|p pre']; simpl in Heq.
      * injection Heq as _ Hv _. now subst v.
      * destruct p as [pk pv]. injection Heq as _ Hpv _. subst pv.
        apply Forall_cons_iff in Hpre as [Hx _]. simpl in Hx.
        now apply Qclt_trans with x.
    + apply Qcltb_ge in E.
      destruct (IH best bestv) as (v & pre & post & Heq & Hpre & Hpost).
      destruct pre as [|p pre']; simpl in Heq.
      * injection Heq as Hb Hv Ht. subst v post.
        exists bestv, [], ((k, x) :: t). simpl.
        rewrite <- Hb. repeat split; constructor; trivial.
      * destruct p as [pk pv]. injection Heq as Hpk Hpv Ht. subst pk pv.
        apply Forall_cons_iff in Hpre as [Hb Hpre]. simpl in Hb.
        exists v, ((best, bestv) :: (k, x) :: pre'), post. simpl.
        split; [do 2 f_equal; exact Ht|]. split; trivial.
        constructor; trivial. constructor; trivial. simpl.
        now apply Qcle_lt_trans with bestv.
Qed.

Lemma idxmax_spec (s : list (K * Qc)) (k : K) :
  idxmax s = inr k ->
  exists v pre post,
    s = (pre ++ (k, v) :: post)%list
    /\ Forall (fun p => (snd p < v)%Qc) pre
    /\ Forall (fun p => (snd p <= v)%Qc) post.
Proof.
  destruct s as [|[k0 v0] t]; simpl; [discriminate|].
  intros E. inversion E; subst. apply idxmax_from_spec.
Qed.

Lemma idxmax_nonempty (s : list (K * Qc)) :
  s <> [] -> exists k, idxmax s = inr k.
Proof.
  destruct s as [|[k0 v0] t]; [congruence|]. intros _. simpl. eauto.
Qed.
End IdxmaxFacts.

(** ** Date parsing *)

(** The row as it was in the file, before its date was parsed. *)
Definition raw (r : Row Timestamp) : Row DateCell :=
  set_Date r (DateText (Date r)).

Definition parseable (r : Row DateCell) : Prop := Date r <> Unparseable.

Lemma to_datetime_from_ok (cells : list DateCell) :
  forall pos ts,
    to_datetime_from pos cells = inr ts <-> cells = map DateText ts.
Proof.
  induction cells as [|[t|] rest IH]; intros pos ts; simpl.
  - split.
    + intros E. injection E as <-. reflexivity.
    + destruct ts; [reflexivity | discriminate].
  - specialize (IH (S pos)).
    destruct (to_datetime_from (S pos) rest) as [e|ts'].
    + split; [discriminate|]. destruct ts as [|t' ts]; [discriminate|].
      simpl. intros E. injection E as -> E. apply IH in E. discriminate.
    + split.
      * intros E. injection E as <-. simpl. f_equal. now apply IH.
      * destruct ts as [|t' ts]; [discriminate|]. simpl.
        intros E. injection E as -> E. apply IH in E. congruence.
  - split; [discriminate|]. destruct ts; discriminate.
Qed.

(** The exception names the first cell that is not a date. *)
Lemma to_datetime_from_err (good : list Timestamp) (rest : list DateCell) :
  forall pos,
    to_datetime_from pos (map DateText good ++ Unparseable :: rest)%list
    = inl (DateParseError (pos + List.length good)).
Proof.
  induction good as [|t good IH]; intros pos; simpl.
  - now rewrite Nat.add_0_r.
  - rewrite IH. f_equal. f_equal. lia.
Qed.

Lemma raw_set_Date (r : Row DateCell) (t : Timestamp) :
  Date r = DateText t -> raw (set_Date r t) = r.
Proof. destruct r; simpl. intros ->. reflexivity. Qed.

Lemma parseable_split (csv : list (Row DateCell)) :
  Forall parseable csv
  \/ exists good r rest,
       csv = (map raw good ++ r :: rest)%list /\ Date r = Unparseable.
Proof.
  induction csv as [|r csv IH].
  - left. constructor.
  - destruct (Date r) as [t|] eqn:E.
    + destruct IH as [Hall | (good & r' & rest & -> & Hr')].
      * left. constructor; trivial. unfold parseable. congruence.
      * right. exists (set_Date r t :: good), r', rest. split; trivial.
        simpl. f_equal. symmetry. now apply raw_set_Date.
    + right. exists [], r, csv. now split.
Qed.

Lemma raw_inj (r r' : Row Timestamp) : raw r = raw r' -> r = r'.
Proof.
  destruct r, r'; unfold raw, set_Date; simpl. intros E.
  injection E as -> -> -> -> -> ->. reflexivity.
Qed.

Lemma map_raw_inj (df df' : DataFrame) : map raw df = map raw df' -> df = df'.
Proof.
  revert df'. induction df as [|r df IH]; intros [|r' df'] E;
    try discriminate E; trivial.
  cbn [map] in E.
  assert (E1 : raw r = raw r') by congruence.
  assert (E2 : map raw df = map raw df') by congruence.
  f_equal; [now apply raw_inj | now apply IH].
Qed.

Lemma map_Date_raw (df : DataFrame) :
  map Date (map raw df) = map DateText (map Date df).
Proof. rewrite !map_map. reflexivity. Qed.

Lemma assign_Date_raw (df : DataFrame) :
  assign_Date (map raw df) (map Date df) = df.
Proof.
  unfold assign_Date. induction df as [|r df IH]; simpl; trivial.
  rewrite IH. f_equal. now destruct r.
Qed.

Lemma assign_Date_inv (csv : list (Row DateCell)) (ts : list Timestamp) :
  map Date csv = map DateText ts ->
  csv = map raw (assign_Date csv ts) /\ map Date (assign_Date csv ts) = ts.
Proof.
  unfold assign_Date. revert ts.
  induction csv as [|r csv IH]; intros [|t ts]; simpl; try discriminate.
  - now split.
  - intros E. injection E as E1 E2. destruct (IH ts E2) as [H1 H2].
    split; [|now rewrite H2].
    rewrite <- H1. f_equal. symmetry. now apply raw_set_Date.
Qed.

Lemma Forall_parseable_raw (df : DataFrame) : Forall parseable (map raw df).
Proof.
  apply Forall_forall. intros r (r' & <- & _) % in_map_iff. discriminate.
Qed.

Lemma parseable_all_raw (csv : list (Row DateCell)) :
  Forall parseable csv -> exists df, csv = map raw df.
Proof.
  intros Hall. destruct (parseable_split csv) as [_ | (good & r & rest & -> & Hr)].
  - induction Hall as [|r csv Hr _ IH].
    + now exists [].
    + destruct IH as (df & ->). destruct (Date r) as [t|] eqn:E.
      * exists (set_Date r t :: df). simpl. f_equal. symmetry.
        now apply raw_set_Date.
      * now elim Hr.
  - rewrite Forall_forall in Hall. elim (Hall r); trivial.
    apply in_or_app. right. now left.
Qed.

(** ** The builder *)

(** The dict literal of the [try] block, for a frame [df] and the label
    [best] that [idxmax] returned. *)
Definition stats_of (df : DataFrame) (best : string) : Stats :=
  {| total_revenue := Finite (sum_Qc (map Sales df));
     average_transaction := mean (map Sales df);
     median_sales := median (map Sales df);
     std_dev := std (map Sales df);
     best_selling_product := best;
     sales_by_product := groupby_sum Product Sales df;
     sales_by_region := groupby_sum Region Sales df;
     monthly_trend :=
       dict_of_items
         (map (fun kv => (str_period (fst kv), int_of_Qc (snd kv)))
            (groupby_sum (fun r => to_period_M (Date r)) Sales df));
     avg_customer_age :=
       mean (map (fun r => Q2Qc (inject_Z (Customer_Age r))) df);
     avg_satisfaction := mean (map Customer_Satisfaction df) |}.

(** On rows that all parse, the [try] block runs to the dict literal. *)
Lemma try_body_raw (df : DataFrame) :
  try_body (map raw df)
  = match idxmax (groupby_sum Product Sales df) with
    | inl e => inl e
    | inr best => inr (df, stats_of df best)
    end.
Proof.
  unfold try_body, to_datetime.
  rewrite (proj2 (to_datetime_from_ok (map Date (map raw df)) 0 (map Date df)))
    by apply map_Date_raw.
  simpl. rewrite assign_Date_raw. reflexivity.
Qed.

Lemma try_body_unparseable (good : DataFrame) (r : Row DateCell)
    (rest : list (Row DateCell)) :
  Date r = Unparseable ->
  try_body (map raw good ++ r :: rest)%list
  = inl (DateParseError (List.length good)).
Proof.
  intros Hr. unfold try_body, to_datetime.
  rewrite map_app, map_Date_raw. simpl. rewrite Hr.
  rewrite to_datetime_from_err. simpl. now rewrite length_map.
Qed.

(** A non-empty file whose dates all parse is loaded. *)
Lemma load_raw (df : DataFrame) :
  df <> [] ->
  exists best,
    idxmax (groupby_sum Product Sales df) = inr best
    /\ load_and_process_data (Some (map raw df))
       = Returned (df, stats_of df best).
Proof.
  intros Hne.
  destruct (idxmax_nonempty (groupby_sum Product Sales df)) as [best Hbest].
  { now apply groupby_sum_nonempty. }
  exists best. split; trivial.
  unfold load_and_process_data. now rewrite try_body_raw, Hbest.
Qed.

(** A loaded file is non-empty and all its dates parsed. *)
Lemma load_inv (file : option (list (Row DateCell))) (df : DataFrame)
    (st : Stats) :
  load_and_process_data file = Returned (df, st) ->
  file = Some (map raw df) /\ df <> []
  /\ idxmax (groupby_sum Product Sales df) = inr (best_selling_product st)
  /\ st = stats_of df (best_selling_product st).
Proof.
  destruct file as [csv|]; simpl; [|discriminate].
  destruct (parseable_split csv) as [Hall | (good & r & rest & -> & Hr)].
  - destruct (parseable_all_raw csv Hall) as (df0 & ->).
    rewrite try_body_raw.
    destruct (idxmax (groupby_sum Product Sales df0)) as [e|best] eqn:E;
      [discriminate|].
    intros H. injection H as <- <-. simpl. repeat split; trivial.
    intros ->. discriminate E.
  - rewrite try_body_unparseable by trivial. discriminate.
Qed.

(** ** Totals over the rows of the file *)

(** Summed [Sales] of the rows of the file with product [p]. *)
Definition product_total (csv : list (Row DateCell)) (p : string) : Qc :=
  sum_Qc (map Sales (filter (fun r => String.eqb (Product r) p) csv)).

(** Summed [Sales] of the rows of the file with region [g]. *)
Definition region_total (csv : list (Row DateCell)) (g : string) : Qc :=
  sum_Qc (map Sales (filter (fun r => String.eqb (Region r) g) csv)).

Lemma key_eqb_string (a b : string) : key_eqb a b = String.eqb a b.
Proof.
  destruct (String.eqb_spec a b) as [E|N].
  - now apply key_eqb_eq.
  - now apply key_eqb_neq.
Qed.

Lemma group_total_Product (df : DataFrame) (p : string) :
  group_total Product Sales p df = product_total (map raw df) p.
Proof.
  unfold group_total, product_total.
  induction df as [|r df IH]; simpl; trivial.
  rewrite key_eqb_string.
  destruct (String.eqb (Product r) p); simpl; now rewrite IH.
Qed.

Lemma group_total_Region (df : DataFrame) (g : string) :
  group_total Region Sales g df = region_total (map raw df) g.
Proof.
  unfold group_total, region_total.
  induction df as [|r df IH]; simpl; trivial.
  rewrite key_eqb_string.
  destruct (String.eqb (Region r) g); simpl; now rewrite IH.
Qed.

Lemma map_Product_raw (df : DataFrame) :
  map Product (map raw df) = map Product df.
Proof. rewrite map_map. reflexivity. Qed.

Lemma map_Region_raw (df : DataFrame) :
  map Region (map raw df) = map Region df.
Proof. rewrite map_map. reflexivity. Qed.

Lemma map_Sales_raw (df : DataFrame) :
  map Sales (map raw df) = map Sales df.
Proof. rewrite map_map. reflexivity. Qed.

Lemma StronglySorted_app_r {A : Type} (R : A -> A -> Prop) (l1 l2 : list A) :
  StronglySorted R (l1 ++ l2)%list -> StronglySorted R l2.
Proof.
  induction l1 as [|a l1 IH]; simpl; trivial.
  intros H. apply IH. now inversion H.
Qed.

(** In a series with ascending labels, [idxmax] picks, among the labels
    that carry the maximum, the least one. *)
Lemma idxmax_sorted_least {K : Type} {ordK : Ord K} {lawsK : OrdLaws K}
    (s : list (K * Qc)) (best : K) :
  StronglySorted klt (map fst s) ->
  idxmax s = inr best ->
  exists v,
    In (best, v) s
    /\ (forall k x, In (k, x) s -> (x <= v)%Qc)
    /\ (forall k, In (k, v) s -> k = best \/ klt best k).
Proof.
  intros Hs Hbest.
  destruct (idxmax_spec s best Hbest) as (v & pre & post & -> & Hpre & Hpost).
  rewrite Forall_forall in Hpre, Hpost.
  exists v. split; [apply in_or_app; right; now left|]. split.
  - intros k x [Hin|[E|Hin]] % in_app_or.
    + apply Qclt_le_weak. exact (Hpre _ Hin).
    + injection E as _ <-. apply Qcle_refl.
    + exact (Hpost _ Hin).
  - intros k [Hin|[E|Hin]] % in_app_or.
    + exfalso. apply Hpre in Hin. simpl in Hin.
      exact (Qclt_not_eq _ _ Hin eq_refl).
    + left. congruence.
    + right. rewrite map_app in Hs. apply StronglySorted_app_r in Hs.
      simpl in Hs. apply StronglySorted_inv in Hs as [_ Hall].
      rewrite Forall_forall in Hall. apply Hall.
      change k with (fst (k, v)). now apply in_map.
Qed.

(** ** C1 *)


(** ** C3 *)

(** [x] equals [y] within the relative tolerance [1e-6]. *)
Definition within_rel_tol (x y : Qc) : Prop :=
  (Qcabs (x - y) <= Q2Qc (1 # 1000000) * Qcabs y)%Qc.

Lemma within_rel_tol_refl (x : Qc) : within_rel_tol x x.
Proof.
  unfold within_rel_tol.
  replace (x - x)%Qc with 0%Qc by ring.
  assert (E : Qcabs 0 = 0%Qc) by (apply Qc_is_canon; reflexivity).
  rewrite E, <- (Qcmult_0_l (Qcabs x)).
  apply Qcmult_le_compat_r; [discriminate | apply Qcabs_nonneg].
Qed.


(** ** C4 *)

(** C4.  An empty file stops the script with the error raised by
    [idxmax] on the empty series; and every call either stops the script,
    returning nothing, or returns the index of a non-empty file whose
    dates all parsed, built by the full dict literal. *)
Theorem empty_file_stops_and_no_partial_index :
  load_and_process_data (Some []) = Stopped (ErrorLoadingData ArgmaxOfEmpty)
  /\ forall file,
       (exists shown, load_and_process_data file = Stopped shown)
       \/ (exists df st,
             load_and_process_data file = Returned (df, st)
             /\ file = Some (map raw df) /\ df <> []
             /\ st = stats_of df (best_selling_product st)
             /\ idxmax (sales_by_product st)
                = inr (best_selling_product st)).
Proof.
  split; [reflexivity|].
  intros file.
  destruct (load_and_process_data file) as [[df st]|shown] eqn:E.
  - right. exists df, st.
    destruct (load_inv file df st E) as (Hfile & Hdf & Hbest & Hst).
    repeat split; trivial. rewrite Hst. exact Hbest.
  - left. eauto.
Qed.

(** ** C5 *)


(** ** Month keys *)

Fixpoint no_dash (s : string) : Prop :=
  match s with
  | EmptyString => True
  | String c t => c <> "-"%char /\ no_dash t
  end.

Lemma no_dash_app (a b : string) : no_dash a -> no_dash b -> no_dash (a ++ b).
Proof. induction a; simpl; intuition. Qed.

Lemma no_dash_zeros (n : nat) : no_dash (zeros n).
Proof. induction n; simpl; intuition discriminate. Qed.

Lemma no_dash_string_of_uint (d : uint) : no_dash (NilEmpty.string_of_uint d).
Proof. induction d; simpl; intuition discriminate. Qed.

Lemma no_dash_zfill (w n : nat) : no_dash (zfill w (str_nat n)).
Proof.
  apply no_dash_app; [apply no_dash_zeros | apply no_dash_string_of_uint].
Qed.

(** A string is split in one way only at its first dash. *)
Lemma app_dash_inj (a1 a2 b1 b2 : string) :
  no_dash a1 -> no_dash a2 ->
  a1 ++ String "-" b1 = a2 ++ String "-" b2 -> a1 = a2 /\ b1 = b2.
Proof.
  revert a2. induction a1 as [|c a1 IH]; intros [|c' a2]; simpl.
  - intros _ _ E. injection E as E. now split.
  - intros _ [Hc _] E. injection E as E _. congruence.
  - intros [Hc _] _ E. injection E as E _. congruence.
  - intros [_ H1] [_ H2] E. injection E as Ec E.
    destruct (IH a2 H1 H2 E) as [-> ->]. now subst.
Qed.

(** The number a digit string denotes, leading zeros allowed. *)
Definition digits_value (s : string) : option nat :=
  option_map Nat.of_uint (NilEmpty.uint_of_string s).

Lemma zeros_string_of_uint (k : nat) (d : uint) :
  zeros k ++ NilEmpty.string_of_uint d
  = NilEmpty.string_of_uint (Nat.iter k D0 d).
Proof. induction k; simpl; [reflexivity | now rewrite IHk]. Qed.

Lemma of_uint_iter_D0 (k : nat) (d : uint) :
  Nat.of_uint (Nat.iter k D0 d) = Nat.of_uint d.
Proof. induction k; simpl; [reflexivity | exact IHk]. Qed.

Lemma digits_value_zfill (w n : nat) :
  digits_value (zfill w (str_nat n)) = Some n.
Proof.
  unfold digits_value, zfill, str_nat.
  rewrite zeros_string_of_uint, NilEmpty.usu. simpl.
  now rewrite of_uint_iter_D0, DecimalNat.Unsigned.of_to.
Qed.

Lemma zfill_inj (w n n' : nat) :
  zfill w (str_nat n) = zfill w (str_nat n') -> n = n'.
Proof.
  intros E. apply (f_equal digits_value) in E.
  rewrite !digits_value_zfill in E. congruence.
Qed.

(** Distinct months have distinct keys. *)
Lemma str_period_inj (p q : Period) : str_period p = str_period q -> p = q.
Proof.
  destruct p as [y m], q as [y' m']. unfold str_period. simpl. intros E.
  apply app_dash_inj in E as [Ey Em]; try apply no_dash_zfill.
  apply zfill_inj in Ey, Em. congruence.
Qed.

(** ** Dicts *)

Lemma dict_set_fresh {V : Type} (d : list (string * V)) (k : string) (v : V) :
  ~ In k (map fst d) -> dict_set d k v = (d ++ [(k, v)])%list.
Proof.
  induction d as [|[k' v'] d IH]; simpl; trivial.
  intros Hn. destruct (String.eqb_spec k' k) as [E|N].
  - elim Hn. now left.
  - rewrite IH; trivial. intros H. apply Hn. now right.
Qed.

Lemma dict_of_items_from {V : Type} (items acc : list (string * V)) :
  NoDup (map fst (acc ++ items)%list) ->
  fold_left (fun d kv => dict_set d (fst kv) (snd kv)) items acc
  = (acc ++ items)%list.
Proof.
  revert acc. induction items as [|[k v] items IH]; intros acc Hnd; simpl.
  - now rewrite app_nil_r.
  - rewrite dict_set_fresh.
    + rewrite IH; rewrite <- app_assoc; trivial.
    + rewrite map_app in Hnd. simpl in Hnd.
      apply NoDup_remove_2 in Hnd. intros H. apply Hnd.
      apply in_or_app. now left.
Qed.

(** Inserting pairs with distinct keys gives the pairs, in order. *)
Lemma dict_of_items_NoDup {V : Type} (items : list (string * V)) :
  NoDup (map fst items) -> dict_of_items items = items.
Proof. intros H. unfold dict_of_items. now rewrite dict_of_items_from. Qed.

Lemma NoDup_map_inj {A B : Type} (f : A -> B) (l : list A) :
  (forall a b, f a = f b -> a = b) -> NoDup l -> NoDup (map f l).
Proof.
  intros Hinj. induction 1 as [|a l Ha Hnd IH]; simpl; constructor; trivial.
  intros (b & E & Hb) % in_map_iff. apply Hinj in E. congruence.
Qed.

(** ** Truncation *)

Definition Qc_of_Z (z : Z) : Qc := Q2Qc (inject_Z z).

(** [z] is [q] rounded toward zero. *)
Definition truncated_toward_zero (q : Qc) (z : Z) : Prop :=
  ((0 <= q)%Qc -> (Qc_of_Z z <= q)%Qc /\ (q < Qc_of_Z z + 1)%Qc)
  /\ ((q <= 0)%Qc -> (q <= Qc_of_Z z)%Qc /\ (Qc_of_Z z - 1 < q)%Qc).

Ltac Qc_unfold :=
  unfold Qc_of_Z, Qcle, Qclt, Qcminus, Qcplus, Qcopp, Q2Qc in *;
  cbn [this] in *; rewrite ?Qred_correct in *.

Lemma int_of_Qc_truncates (q : Qc) : truncated_toward_zero q (int_of_Qc q).
Proof.
  destruct q as [[n d] Hcanon]. unfold truncated_toward_zero, int_of_Qc.
  cbn [this Qnum Qden].
  pose proof (Z.quot_rem' n (Zpos d)) as Hqr.
  pose proof (Z.rem_bound_abs n (Zpos d) ltac:(discriminate)) as Habs.
  split; intros Hsign; Qc_unfold.
  - assert (Hn : (0 <= n)%Z).
    { unfold Qle in Hsign. simpl in Hsign. lia. }
    pose proof (Z.rem_nonneg n (Zpos d) ltac:(discriminate) Hn) as Hr.
    split.
    + unfold Qle. simpl. lia.
    + unfold Qlt. simpl. lia.
  - assert (Hn : (n <= 0)%Z).
    { unfold Qle in Hsign. simpl in Hsign. lia. }
    pose proof (Z.rem_nonpos n (Zpos d) ltac:(discriminate) Hn) as Hr.
    split.
    + unfold Qle. simpl. lia.
    + unfold Qlt. simpl. lia.
Qed.

(** ** Months of the file *)

(** The month of a row of the file, when its date parses. *)
Definition row_period (r : Row DateCell) : option Period :=
  match Date r with
  | DateText t => Some (to_period_M t)
  | Unparseable => None
  end.

Definition in_month (p : Period) (r : Row DateCell) : bool :=
  match row_period r with
  | Some q => key_eqb q p
  | None => false
  end.

(** Summed [Sales] of the rows of the file dated in month [p]. *)
Definition month_total (csv : list (Row DateCell)) (p : Period) : Qc :=
  sum_Qc (map Sales (filter (in_month p) csv)).

(** The months that occur in the file, ascending, each once. *)
Definition months (csv : list (Row DateCell)) : list Period :=
  unique_sorted
    (flat_map (fun r => match row_period r with
                        | Some q => [q]
                        | None => []
                        end) csv).

Lemma group_total_month (df : DataFrame) (p : Period) :
  group_total (fun r => to_period_M (Date r)) Sales p df
  = month_total (map raw df) p.
Proof.
  unfold group_total, month_total.
  induction df as [|r df IH]; simpl; trivial.
  unfold in_month at 1. simpl.
  destruct (key_eqb (to_period_M (Date r)) p); simpl; now rewrite IH.
Qed.

Lemma months_raw (df : DataFrame) :
  months (map raw df) = unique_sorted (map (fun r => to_period_M (Date r)) df).
Proof.
  unfold months. f_equal.
  induction df as [|r df IH]; simpl; trivial. now rewrite IH.
Qed.

Lemma In_months (csv : list (Row DateCell)) (p : Period) :
  In p (months csv) <-> exists r, In r csv /\ row_period r = Some p.
Proof.
  unfold months. rewrite In_unique_sorted, in_flat_map. split.
  - intros (r & Hr & Hp). exists r. split; trivial.
    destruct (row_period r); simpl in Hp; [|tauto].
    destruct Hp as [->|[]]. reflexivity.
  - intros (r & Hr & E). exists r. split; trivial. rewrite E. now left.
Qed.

(** The month dict of a loaded file: one entry per month of the file, in
    ascending order of months, keyed by the month's text and holding the
    month's total cut to an integer. *)
Lemma monthly_trend_of (df : DataFrame) (best : string) :
  monthly_trend (stats_of df best)
  = map (fun p => (str_period p, int_of_Qc (month_total (map raw df) p)))
        (months (map raw df)).
Proof.
  simpl. rewrite dict_of_items_NoDup.
  - unfold groupby_sum. rewrite map_map, months_raw. simpl.
    apply map_ext. intros p. f_equal. f_equal.
    exact (group_total_month df p).
  - rewrite map_map. simpl.
    rewrite <- (map_map fst str_period), groupby_sum_keys.
    apply NoDup_map_inj; [exact str_period_inj|].
    apply StronglySorted_NoDup, unique_sorted_StronglySorted.
Qed.

(** The keys of the month dict of a loaded file are distinct. *)
Lemma monthly_trend_keys_NoDup (df : DataFrame) (best : string) :
  NoDup (map fst (monthly_trend (stats_of df best))).
Proof.
  rewrite monthly_trend_of, map_map. simpl.
  apply NoDup_map_inj; [exact str_period_inj|].
  apply StronglySorted_NoDup, unique_sorted_StronglySorted.
Qed.

Lemma months_total (df : DataFrame) :
  sum_Qc (map (month_total (map raw df)) (months (map raw df)))
  = sum_Qc (map Sales df).
Proof.
  rewrite months_raw.
  rewrite <- (groupby_sum_total (fun r => to_period_M (Date r)) Sales df).
  unfold groupby_sum. rewrite map_map. simpl.
  f_equal. apply map_ext. intros p. symmetry.
  exact (group_total_month df p).
Qed.

Lemma months_nonempty (df : DataFrame) : df <> [] -> months (map raw df) <> [].
Proof.
  intros Hne. rewrite months_raw. apply unique_sorted_nonempty.
  destruct df; [congruence | discriminate].
Qed.

(** ** C10 *)


(** ** C2 *)

(** The sum of the values of [monthly_trend]. *)
Definition trend_sum (st : Stats) : Qc :=
  sum_Qc (map (fun kv => Qc_of_Z (snd kv)) (monthly_trend st)).

(** [q] is a whole number. *)
Definition whole (q : Qc) : Prop := exists z, q = Qc_of_Z z.

(** [float(int(q))]. *)
Definition trunc (q : Qc) : Qc := Qc_of_Z (int_of_Qc q).

Lemma trunc_close (q : Qc) : (q - 1 < trunc q)%Qc /\ (trunc q < q + 1)%Qc.
Proof.
  unfold trunc.
  destruct (int_of_Qc_truncates q) as [Hpos Hneg].
  destruct (Qclt_le_dec q 0) as [Hlt|Hge].
  - destruct (Hneg (Qclt_le_weak _ _ Hlt)) as [H1 H2].
    Qc_unfold. split; lra.
  - destruct (Hpos Hge) as [H1 H2].
    Qc_unfold. split; lra.
Qed.

Lemma Qc_of_nat_S (n : nat) : Qc_of_nat (S n) = (Qc_of_nat n + 1)%Qc.
Proof.
  apply Qc_is_canon. unfold Qc_of_nat. Qc_unfold.
  rewrite Nat2Z.inj_succ, <- Z.add_1_r, inject_Z_plus. reflexivity.
Qed.

Lemma sum_trunc_bounds (ts : list Qc) :
  (sum_Qc ts - Qc_of_nat (List.length ts) <= sum_Qc (map trunc ts))%Qc
  /\ (sum_Qc (map trunc ts) <= sum_Qc ts + Qc_of_nat (List.length ts))%Qc.
Proof.
  induction ts as [|t ts [IH1 IH2]].
  - split; apply Qcle_refl.
  - destruct (trunc_close t) as [H1 H2].
    cbn [List.length map sum_Qc fold_right]. rewrite Qc_of_nat_S.
    fold (sum_Qc ts). fold (sum_Qc (map trunc ts)).
    Qc_unfold. split; lra.
Qed.

Lemma sum_trunc_strict (ts : list Qc) :
  ts <> [] ->
  (sum_Qc ts - Qc_of_nat (List.length ts) < sum_Qc (map trunc ts))%Qc
  /\ (sum_Qc (map trunc ts) < sum_Qc ts + Qc_of_nat (List.length ts))%Qc.
Proof.
  destruct ts as [|t ts]; [congruence|]. intros _.
  destruct (trunc_close t) as [H1 H2].
  destruct (sum_trunc_bounds ts) as [H3 H4].
  cbn [List.length map sum_Qc fold_right]. rewrite Qc_of_nat_S.
  fold (sum_Qc ts). fold (sum_Qc (map trunc ts)).
  Qc_unfold. split; lra.
Qed.

Lemma whole_plus (x y : Qc) : whole x -> whole y -> whole (x + y)%Qc.
Proof.
  intros [a ->] [b ->]. exists (a + b)%Z.
  apply Qc_is_canon. Qc_unfold. now rewrite inject_Z_plus.
Qed.

Lemma whole_sum (xs : list Qc) : Forall whole xs -> whole (sum_Qc xs).
Proof.
  induction 1 as [|x xs Hx _ IH]; simpl.
  - exists 0%Z. apply Qc_is_canon. reflexivity.
  - now apply whole_plus.
Qed.

Lemma trunc_whole (q : Qc) : whole q -> trunc q = q.
Proof.
  intros [z ->]. unfold trunc. f_equal.
  unfold int_of_Qc, Qc_of_Z, Q2Qc. cbn [this].
  rewrite Qred_identity by (simpl; apply Z.gcd_1_r).
  simpl. apply Z.quot_1_r.
Qed.

Lemma month_total_whole (csv : list (Row DateCell)) (p : Period) :
  Forall (fun r => whole (Sales r)) csv -> whole (month_total csv p).
Proof.
  intros Hall. apply whole_sum. apply Forall_forall.
  intros x (r & <- & Hr) % in_map_iff. apply filter_In in Hr as [Hr _].
  rewrite Forall_forall in Hall. now apply Hall.
Qed.


(** ** The retriever *)

Section RetrieverFacts.
Variable repr_str : string -> string.
Variable repr_float : Qc -> string.

(** The lines of a topic when one of its words occurs in the lowercased
    question, no line otherwise. *)
Definition block (words : list string) (q : string) (lines : list string)
    : list string :=
  if any_in words (lower q) then lines else [].

(** The blocks of the five topics, in the order of the rules. *)
Definition topic_blocks (q : string) (s : Stats) : list string :=
  (block revenue_words q [revenue_line s]
   ++ block average_words q
        [average_transaction_line s; average_age_line s;
         average_satisfaction_line s]
   ++ block product_words q [best_product_line s; sales_by_product_line repr_str repr_float s]
   ++ block region_words q [region_line repr_str repr_float s]
   ++ block trend_words q [trend_line repr_str s])%list.

Definition triggers (words : list string) (q : string) : Prop :=
  any_in words (lower q) = true.

Definition no_trigger (q : string) : Prop :=
  any_in revenue_words (lower q) = false
  /\ any_in average_words (lower q) = false
  /\ any_in product_words (lower q) = false
  /\ any_in region_words (lower q) = false
  /\ any_in trend_words (lower q) = false.

(** The call leaves [context_parts] equal to the topic blocks, or to the
    overview line when they are empty, returns its lines joined, and
    leaves [query] and [stats] as they were. *)
Lemma run_retriever_eq (q : string) (s : Stats) :
  run_retriever repr_str repr_float q s
  = let parts := match topic_blocks q s with
                 | [] => [overview_line s]
                 | _ :: _ => topic_blocks q s
                 end in
    (join newline parts,
     {| query := q; stats := s; context_parts := parts |}).
Proof.
  unfold run_retriever, custom_retriever_body, topic_blocks, block, when.
  cbn -[any_in lower].
  destruct (any_in revenue_words (lower q));
    destruct (any_in average_words (lower q));
    destruct (any_in product_words (lower q));
    destruct (any_in region_words (lower q));
    destruct (any_in trend_words (lower q)); reflexivity.
Qed.
Lemma final_parts_eq (q : string) (s : Stats) :
  final_parts repr_str repr_float q s
  = match topic_blocks q s with
    | [] => [overview_line s]
    | _ :: _ => topic_blocks q s
    end.
Proof. unfold final_parts. now rewrite run_retriever_eq. Qed.

Lemma custom_retriever_eq (q : string) (s : Stats) :
  custom_retriever repr_str repr_float q s
  = join newline (final_parts repr_str repr_float q s).
Proof. unfold custom_retriever, final_parts. now rewrite run_retriever_eq. Qed.

Lemma topic_blocks_triggered (q : string) (s : Stats) :
  triggers revenue_words q \/ triggers average_words q
  \/ triggers product_words q \/ triggers region_words q
  \/ triggers trend_words q ->
  topic_blocks q s <> [].
Proof.
  unfold triggers, topic_blocks, block. intros H.
  destruct (any_in revenue_words (lower q)); [discriminate|].
  destruct (any_in average_words (lower q)); [discriminate|].
  destruct (any_in product_words (lower q)); [discriminate|].
  destruct (any_in region_words (lower q)); [discriminate|].
  destruct (any_in trend_words (lower q)); [discriminate|].
  intuition discriminate.
Qed.

Lemma topic_blocks_untriggered (q : string) (s : Stats) :
  no_trigger q -> topic_blocks q s = [].
Proof.
  unfold no_trigger, topic_blocks, block.
  intros (-> & -> & -> & -> & ->). reflexivity.
Qed.

(** ** C6 *)

(** C6.  When a question triggers at least one topic rule, the lines
    returned are the blocks of the triggered topics in the rule order
    revenue, average, product, region, trend, with nothing for the other
    topics.  For "tell me about products and regions" they are the two
    product lines and then the region line; the same holds when the
    question names the region before the product. *)
Theorem retriever_emits_blocks_in_rule_order (q : string) (s : Stats) :
  triggers revenue_words q \/ triggers average_words q
  \/ triggers product_words q \/ triggers region_words q
  \/ triggers trend_words q ->
  final_parts repr_str repr_float q s = topic_blocks q s
  /\ custom_retriever repr_str repr_float q s
     = join newline (topic_blocks q s)
  /\ final_parts repr_str repr_float "tell me about products and regions" s
     = [best_product_line s; sales_by_product_line repr_str repr_float s;
        region_line repr_str repr_float s]
  /\ final_parts repr_str repr_float "Which REGION has the best product?" s
     = [best_product_line s; sales_by_product_line repr_str repr_float s;
        region_line repr_str repr_float s].
Proof.
  intros H. apply (topic_blocks_triggered q s) in H.
  rewrite custom_retriever_eq, !final_parts_eq.
  destruct (topic_blocks q s) eqn:E; [congruence|].
  repeat split; reflexivity.
Qed.

(** ** C7 *)

Lemma last_n_split {A : Type} (n : nat) (l : list A) :
  l = (firstn (List.length l - n) l ++ last_n n l)%list.
Proof. unfold last_n. now rewrite firstn_skipn. Qed.

Lemma last_n_length {A : Type} (n : nat) (l : list A) :
  List.length (last_n n l) = Nat.min n (List.length l).
Proof. unfold last_n. rewrite length_skipn. lia. Qed.

Lemma last_n_all {A : Type} (n : nat) (l : list A) :
  (List.length l <= n)%nat -> last_n n l = l.
Proof.
  intros H. unfold last_n.
  replace (List.length l - n)%nat with 0%nat by lia. reflexivity.
Qed.

Lemma last_n_map {A B : Type} (f : A -> B) (n : nat) (l : list A) :
  last_n n (map f l) = map f (last_n n l).
Proof. unfold last_n. now rewrite length_map, skipn_map. Qed.

Lemma last_n_NoDup {A : Type} (n : nat) (l : list A) :
  NoDup l -> NoDup (last_n n l).
Proof.
  intros H. rewrite (last_n_split n l) in H.
  now apply NoDup_app_remove_l in H.
Qed.

Lemma last_n_StronglySorted {A : Type} (R : A -> A -> Prop) (n : nat)
    (l : list A) :
  StronglySorted R l -> StronglySorted R (last_n n l).
Proof.
  intros H. rewrite (last_n_split n l) in H.
  now apply StronglySorted_app_r in H.
Qed.

(** C7.  When the lowercased question contains "trend", "month", "time"
    or "period", the last line returned is the trend line, printed from
    the last six entries of [monthly_trend] in the order they have there,
    and from all entries when there are at most six.  For the index of a
    loaded file these entries are those of the last six months of the
    file, in ascending order of months. *)
Theorem trend_topic_emits_last_six_months (q : string) (s : Stats) :
  triggers trend_words q ->
  NoDup (map fst (monthly_trend s)) ->
  exists earlier older recent,
    final_parts repr_str repr_float q s
    = (earlier
       ++ [("Recent 6 Months Trend: "
            ++ repr_dict repr_str repr_int recent)%string])%list
    /\ earlier
       = (block revenue_words q [revenue_line s]
          ++ block average_words q
               [average_transaction_line s; average_age_line s;
                average_satisfaction_line s]
          ++ block product_words q
               [best_product_line s;
                sales_by_product_line repr_str repr_float s]
          ++ block region_words q [region_line repr_str repr_float s])%list
    /\ monthly_trend s = (older ++ recent)%list
    /\ List.length recent = Nat.min 6 (List.length (monthly_trend s))
    /\ ((List.length (monthly_trend s) <= 6)%nat -> recent = monthly_trend s)
    /\ (forall csv df,
          load_and_process_data (Some csv) = Returned (df, s) ->
          recent
          = map (fun p => (str_period p, int_of_Qc (month_total csv p)))
                (last_n 6 (months csv))
          /\ StronglySorted klt (last_n 6 (months csv))).
Proof.
  intros Htrend Hnd.
  exists (block revenue_words q [revenue_line s]
          ++ block average_words q
               [average_transaction_line s; average_age_line s;
                average_satisfaction_line s]
          ++ block product_words q
               [best_product_line s;
                sales_by_product_line repr_str repr_float s]
          ++ block region_words q [region_line repr_str repr_float s])%list,
    (firstn (List.length (monthly_trend s) - 6) (monthly_trend s)),
    (last_n 6 (monthly_trend s)).
  split; [|split; [reflexivity|split; [apply last_n_split|split;
    [apply last_n_length|split; [apply last_n_all|]]]]].
  - rewrite final_parts_eq.
    assert (Hne : topic_blocks q s <> [])
      by (apply topic_blocks_triggered; tauto).
    destruct (topic_blocks q s) eqn:E; [congruence|]. rewrite <- E.
    unfold topic_blocks. rewrite !app_assoc. f_equal.
    unfold block at 1. rewrite Htrend. f_equal.
    unfold trend_line, recent_months. f_equal. f_equal.
    apply dict_of_items_NoDup. rewrite <- last_n_map.
    now apply last_n_NoDup.
  - intros csv df Hload.
    destruct (load_inv _ _ _ Hload) as (Hcsv & _ & _ & Hst).
    injection Hcsv as ->. rewrite Hst, monthly_trend_of, last_n_map.
    split; [reflexivity|].
    apply last_n_StronglySorted, unique_sorted_StronglySorted.
Qed.

(** ** C8 *)

(** [a] occurs in [b]. *)
Definition occurs_in (a b : string) : Prop :=
  exists pre post, b = pre ++ a ++ post.

Lemma join_nonempty (x : string) (rest : list string) :
  x <> EmptyString -> join newline (x :: rest) <> EmptyString.
Proof.
  destruct x as [|c x]; [congruence|]. intros _.
  destruct rest; simpl; discriminate.
Qed.

(** C8.  The retriever returns a non-empty string for every question and
    every [stats]; when no word of any topic occurs in the lowercased
    question, it returns exactly the overview line, in which the
    formatted total revenue and the best-selling product occur. *)
Theorem retriever_never_returns_empty (q : string) (s : Stats) :
  custom_retriever repr_str repr_float q s <> EmptyString
  /\ (no_trigger q ->
      final_parts repr_str repr_float q s = [overview_line s]
      /\ custom_retriever repr_str repr_float q s = overview_line s
      /\ occurs_in (format_f true 2 (total_revenue s)) (overview_line s)
      /\ occurs_in (best_selling_product s) (overview_line s)).
Proof.
  split.
  - rewrite custom_retriever_eq, final_parts_eq.
    unfold topic_blocks, block.
    destruct (any_in revenue_words (lower q));
      destruct (any_in average_words (lower q));
      destruct (any_in product_words (lower q));
      destruct (any_in region_words (lower q));
      destruct (any_in trend_words (lower q));
      apply join_nonempty; discriminate.
  - intros Hno.
    rewrite custom_retriever_eq, final_parts_eq.
    rewrite (topic_blocks_untriggered q s Hno).
    split; [reflexivity|]. split; [reflexivity|]. split.
    + exists "Overview: Total Revenue $",
        (", Top Product: " ++ best_selling_product s). reflexivity.
    + exists ("Overview: Total Revenue $"
              ++ format_f true 2 (total_revenue s) ++ ", Top Product: "),
        EmptyString.
      unfold overview_line.
      induction (format_f true 2 (total_revenue s)) as [|c t IH].
      * simpl. induction (best_selling_product s); simpl; congruence.
      * simpl in *. congruence.
Qed.

(** ** C9 *)

(** C9.  A call leaves [query] and [stats] as they were, and a second
    call on the objects the first one left returns the same string. *)
Theorem retriever_is_pure_and_repeatable (q : string) (s : Stats) :
  query (snd (run_retriever repr_str repr_float q s)) = q
  /\ stats (snd (run_retriever repr_str repr_float q s)) = s
  /\ custom_retriever repr_str repr_float
       (query (snd (run_retriever repr_str repr_float q s)))
       (stats (snd (run_retriever repr_str repr_float q s)))
     = custom_retriever repr_str repr_float q s.
Proof.
  rewrite run_retriever_eq. cbn [snd query stats]. repeat split.
Qed.
End RetrieverFacts.

(** * Concrete runs *)

Definition sale (y m d : nat) (product region : string) (amount : Q)
    (age : Z) (satisfaction : Q) : Row DateCell :=
  {| Date := DateText {| year := y; month := m; day := d |};
     Product := product; Region := region; Sales := Q2Qc amount;
     Customer_Age := age; Customer_Satisfaction := Q2Qc satisfaction |}.

(** The scenario of the specification: products A, B and C with totals
    100, 250 and 250. *)
Definition scenario_csv : list (Row DateCell) :=
  [ sale 2024 1 5 "C" "North" 250 41 (9 # 2);
    sale 2024 1 9 "A" "South" 100 35 4;
    sale 2024 2 2 "B" "North" 150 28 (7 # 2);
    sale 2024 2 7 "B" "East" 100 52 5 ].

(** One sale of 19.99. *)
Definition fractional_csv : list (Row DateCell) :=
  [ sale 2024 3 14 "Widget A" "West" (1999 # 100) 30 4 ].

(** A refund entered as a negative sale, with an age and a satisfaction
    score outside their ranges. *)
Definition refund_row : Row DateCell :=
  sale 2024 3 14 "Widget A" "West" (-5) (-3) 99.

Definition refund_csv : list (Row DateCell) :=
  [ sale 2024 3 1 "Widget B" "East" 20 44 3; refund_row ].

(** A file whose third date is not a date. *)
Definition broken_csv : list (Row DateCell) :=
  [ sale 2024 3 1 "Widget B" "East" 20 44 3;
    sale 2024 3 2 "Widget A" "East" 10 23 4;
    {| Date := Unparseable; Product := "Widget A"; Region := "West";
       Sales := Q2Qc 7; Customer_Age := 30; Customer_Satisfaction := Q2Qc 4 |};
    sale 2024 3 4 "Widget C" "North" 5 61 2 ].

(** [repr] of a [str] without quotes, backslashes or control characters,
    and of a float with one decimal digit: enough to run the retriever. *)
Definition repr_str_plain (s : string) : string := "'" ++ s ++ "'".
Definition repr_float_tenths (q : Qc) : string := format_f false 1 (Finite q).

(** An index with eight months. *)
Definition eight_month_stats : Stats :=
  {| total_revenue := Finite (Q2Qc 3600);
     average_transaction := Finite (Q2Qc 450);
     median_sales := Finite (Q2Qc 450);
     std_dev := SqrtOf (Finite (Q2Qc 60000));
     best_selling_product := "Widget A";
     sales_by_product := [("Widget A", Q2Qc 2000); ("Widget B", Q2Qc 1600)];
     sales_by_region := [("East", Q2Qc 1500); ("West", Q2Qc 2100)];
     monthly_trend :=
       [("2023-08", 100); ("2023-09", 200); ("2023-10", 300);
        ("2023-11", 400); ("2023-12", 500); ("2024-01", 600);
        ("2024-02", 700); ("2024-03", 800)]%Z;
     avg_customer_age := Finite (Q2Qc (77 # 2));
     avg_satisfaction := Finite (Q2Qc (15 # 4)) |}.

Ltac all_parseable :=
  repeat first [apply Forall_nil | apply Forall_cons | discriminate].

Ltac all_whole :=
  repeat first
    [ apply Forall_nil
    | apply Forall_cons; [eexists; unfold Qc_of_Z; reflexivity |] ].

Example format_f_ex1 :
  format_f true 2 (Finite (Q2Qc (2469135 # 2))) = "1,234,567.50".
Proof. vm_compute. reflexivity. Qed.

Example format_f_ex2 :
  format_f false 1 (Finite (Q2Qc (-1 # 8))) = "-0.1".
Proof. vm_compute. reflexivity. Qed.

Example format_f_ex3 :
  format_f true 2 (Finite (Q2Qc (1 # 8))) = "0.12".
Proof. vm_compute. reflexivity. Qed.

Example contains_ex : contains "mean" (lower "What does it MEAN?") = true
  /\ contains "mean" "tell me about products and regions" = false.
Proof. split; reflexivity. Qed.

Example str_period_ex :
  str_period {| p_year := 2024; p_month := 3 |} = "2024-03".
Proof. reflexivity. Qed.

Example int_of_Qc_ex :
  int_of_Qc (Q2Qc (7 # 2)) = 3%Z /\ int_of_Qc (Q2Qc (-7 # 2)) = (-3)%Z.
Proof. split; reflexivity. Qed.

Example scenario_best_is_B :
  match load_and_process_data (Some scenario_csv) with
  | Returned (_, st) =>
      best_selling_product st = "B"
      /\ map fst (sales_by_product st) = ["A"; "B"; "C"]
      /\ monthly_trend st = [("2024-01", 350); ("2024-02", 250)]%Z
  | Stopped _ => False
  end.
Proof. vm_compute. repeat split. Qed.

Example retriever_run_products_regions :
  custom_retriever repr_str_plain repr_float_tenths
    "tell me about products and regions" eight_month_stats
  = join newline
      [ "Best Selling Product: Widget A";
        "Sales by Product: {'Widget A': 2000.0, 'Widget B': 1600.0}";
        "Sales by Region: {'East': 1500.0, 'West': 2100.0}" ].
Proof. vm_compute. reflexivity. Qed.

Example retriever_run_trend :
  custom_retriever repr_str_plain repr_float_tenths
    "Monthly TREND of total revenue?" eight_month_stats
  = join newline
      [ "Total Revenue: $3,600.00";
        "Recent 6 Months Trend: {'2023-10': 300, '2023-11': 400, '2023-12': 500, '2024-01': 600, '2024-02': 700, '2024-03': 800}" ].
Proof. vm_compute. reflexivity. Qed.

Example retriever_run_fallback :
  custom_retriever repr_str_plain repr_float_tenths
    "xyz nonsense" eight_month_stats
  = "Overview: Total Revenue $3,600.00, Top Product: Widget A".
Proof. vm_compute. reflexivity. Qed.








(** C6 at the question of the specification. *)
Lemma retriever_rule_order_witness :
  triggers product_words "tell me about products and regions"
  /\ triggers region_words "tell me about products and regions"
  /\ final_parts repr_str_plain repr_float_tenths
       "tell me about products and regions" eight_month_stats
     = topic_blocks repr_str_plain repr_float_tenths
         "tell me about products and regions" eight_month_stats.
Proof.
  split; [reflexivity|]. split; [reflexivity|].
  apply (retriever_emits_blocks_in_rule_order repr_str_plain
           repr_float_tenths "tell me about products and regions"
           eight_month_stats).
  right. right. left. reflexivity.
Defined.

(** C7 at an index with eight months. *)
Lemma trend_topic_witness :
  triggers trend_words "Monthly TREND of total revenue?"
  /\ NoDup (map fst (monthly_trend eight_month_stats))
  /\ exists earlier older recent,
       final_parts repr_str_plain repr_float_tenths
         "Monthly TREND of total revenue?" eight_month_stats
       = (earlier
          ++ [("Recent 6 Months Trend: "
               ++ repr_dict repr_str_plain repr_int recent)%string])%list
       /\ monthly_trend eight_month_stats = (older ++ recent)%list
       /\ List.length recent = 6%nat.
Proof.
  assert (Hnd : NoDup (map fst (monthly_trend eight_month_stats))).
  { simpl. repeat (constructor; [simpl; intuition discriminate|]).
    constructor. }
  split; [reflexivity|]. split; [exact Hnd|].
  destruct (trend_topic_emits_last_six_months repr_str_plain
              repr_float_tenths "Monthly TREND of total revenue?"
              eight_month_stats eq_refl Hnd)
    as (earlier & older & recent & Hparts & _ & Hsplit & Hlen & _).
  exists earlier, older, recent. auto.
Defined.

(** C8 at the question of the specification. *)
Lemma retriever_fallback_witness :
  no_trigger "xyz nonsense"
  /\ custom_retriever repr_str_plain repr_float_tenths
       "xyz nonsense" eight_month_stats
     = overview_line eight_month_stats.
Proof.
  split; [repeat split|].
  apply (proj2 (retriever_never_returns_empty repr_str_plain
                  repr_float_tenths "xyz nonsense" eight_month_stats)).
  repeat split.
Defined.

(** * Further properties of the statistics index *)

(** ** Column statistics under reordering *)

Lemma mean_Permutation (xs ys : list Qc) :
  Permutation xs ys -> mean xs = mean ys.
Proof.
  intros P. unfold mean.
  destruct xs as [|x xs], ys as [|y ys]; trivial.
  - apply Permutation_nil in P. discriminate.
  - apply Permutation_sym, Permutation_nil in P. discriminate.
  - now rewrite (sum_Qc_Permutation _ _ P), (Permutation_length P).
Qed.

Lemma insert_sorted_comm (x y : Qc) (l : list Qc) :
  insert_sorted x (insert_sorted y l) = insert_sorted y (insert_sorted x l).
Proof.
  induction l as [|z t IH]; simpl.
  - destruct (Qcltb y x) eqn:Eyx, (Qcltb x y) eqn:Exy; trivial.
    + apply Qcltb_lt in Eyx, Exy.
      elim (Qclt_not_le _ _ Eyx). now apply Qclt_le_weak.
    + apply Qcltb_ge in Eyx, Exy. now rewrite (Qcle_antisym _ _ Eyx Exy).
  - destruct (Qcltb z y) eqn:Ezy, (Qcltb z x) eqn:Ezx; simpl;
      rewrite ?Ezy, ?Ezx.
    + now rewrite IH.
    + assert (Exy : Qcltb x y = true).
      { apply Qcltb_lt. apply Qcltb_ge in Ezx. apply Qcltb_lt in Ezy.
        now apply Qcle_lt_trans with z. }
      now rewrite Exy.
    + assert (Eyx : Qcltb y x = true).
      { apply Qcltb_lt. apply Qcltb_ge in Ezy. apply Qcltb_lt in Ezx.
        now apply Qcle_lt_trans with z. }
      now rewrite Eyx.
    + destruct (Qcltb y x) eqn:Eyx, (Qcltb x y) eqn:Exy; simpl;
        rewrite ?Ezy, ?Ezx; trivial.
      * apply Qcltb_lt in Eyx, Exy.
        elim (Qclt_not_le _ _ Eyx). now apply Qclt_le_weak.
      * apply Qcltb_ge in Eyx, Exy.
        now rewrite (Qcle_antisym _ _ Eyx Exy).
Qed.

Lemma sort_values_Permutation (xs ys : list Qc) :
  Permutation xs ys -> sort_values xs = sort_values ys.
Proof.
  unfold sort_values.
  induction 1 as [|x l l' _ IH|x y l|l l' l'' _ IH1 _ IH2]; simpl.
  - reflexivity.
  - now rewrite IH.
  - apply insert_sorted_comm.
  - congruence.
Qed.

Lemma median_Permutation (xs ys : list Qc) :
  Permutation xs ys -> median xs = median ys.
Proof. intros P. unfold median. now rewrite (sort_values_Permutation _ _ P). Qed.

Lemma std_Permutation (xs ys : list Qc) :
  Permutation xs ys -> std xs = std ys.
Proof.
  intros P. pose proof (Permutation_length P) as Hlen.
  destruct xs as [|a [|b xs]], ys as [|c [|d ys]]; try discriminate Hlen;
    trivial.
  unfold std. rewrite <- Hlen, <- (sum_Qc_Permutation _ _ P).
  do 3 f_equal. apply sum_Qc_Permutation. now apply Permutation_map.
Qed.

Lemma stats_of_Permutation (df df' : DataFrame) (best : string) :
  Permutation df df' -> stats_of df best = stats_of df' best.
Proof.
  intros P. unfold stats_of.
  rewrite (groupby_sum_Permutation Product Sales df df' P),
    (groupby_sum_Permutation Region Sales df df' P),
    (groupby_sum_Permutation (fun r => to_period_M (Date r)) Sales df df' P),
    (sum_Qc_Permutation _ _ (Permutation_map Sales P)),
    (mean_Permutation _ _ (Permutation_map Sales P)),
    (median_Permutation _ _ (Permutation_map Sales P)),
    (std_Permutation _ _ (Permutation_map Sales P)),
    (mean_Permutation _ _
       (Permutation_map (fun r => Q2Qc (inject_Z (Customer_Age r))) P)),
    (mean_Permutation _ _ (Permutation_map Customer_Satisfaction P)).
  reflexivity.
Qed.


Ltac stopped_is_absurd E := vm_compute in E; discriminate E.


(** ** The two category dicts *)





(** ** Means *)

Ltac Qc_arith :=
  unfold Qc_of_Z, Qcle, Qclt, Qcminus, Qcplus, Qcopp, Qcmult, Q2Qc in *;
  cbn [this] in *; rewrite ?Qred_correct in *.

Lemma Qc_of_nat_pos (n : nat) : (0 < n)%nat -> (0 < Qc_of_nat n)%Qc.
Proof.
  intros H. unfold Qc_of_nat. Qc_arith.
  unfold Qlt. simpl. lia.
Qed.

Lemma Qc_of_nat_neq_0 (n : nat) : (0 < n)%nat -> Qc_of_nat n <> 0%Qc.
Proof.
  intros H E. apply Qc_of_nat_pos in H. rewrite E in H.
  exact (Qclt_not_eq _ _ H eq_refl).
Qed.

Lemma sum_Qc_lower (a : Qc) (xs : list Qc) :
  Forall (fun x => (a <= x)%Qc) xs ->
  (a * Qc_of_nat (List.length xs) <= sum_Qc xs)%Qc.
Proof.
  induction 1 as [|x xs Hx _ IH].
  - simpl. replace (a * Qc_of_nat 0)%Qc with 0%Qc; [apply Qcle_refl|].
    apply Qc_is_canon. unfold Qc_of_nat. Qc_arith. simpl. ring.
  - cbn [List.length sum_Qc fold_right]. fold (sum_Qc xs).
    rewrite Qc_of_nat_S. Qc_arith. lra.
Qed.

Lemma sum_Qc_upper (a : Qc) (xs : list Qc) :
  Forall (fun x => (x <= a)%Qc) xs ->
  (sum_Qc xs <= a * Qc_of_nat (List.length xs))%Qc.
Proof.
  induction 1 as [|x xs Hx _ IH].
  - simpl. replace (a * Qc_of_nat 0)%Qc with 0%Qc; [apply Qcle_refl|].
    apply Qc_is_canon. unfold Qc_of_nat. Qc_arith. simpl. ring.
  - cbn [List.length sum_Qc fold_right]. fold (sum_Qc xs).
    rewrite Qc_of_nat_S. Qc_arith. lra.
Qed.

Lemma sum_Qc_above (a : Qc) (xs : list Qc) :
  Forall (fun x => (a < x)%Qc) xs -> xs <> [] ->
  (a * Qc_of_nat (List.length xs) < sum_Qc xs)%Qc.
Proof.
  intros Hall Hne. destruct Hall as [|x xs Hx Hall]; [congruence|].
  assert (H : (a * Qc_of_nat (List.length xs) <= sum_Qc xs)%Qc).
  { apply sum_Qc_lower. eapply Forall_impl; [|exact Hall].
    intros y. apply Qclt_le_weak. }
  cbn [List.length sum_Qc fold_right]. fold (sum_Qc xs).
  rewrite Qc_of_nat_S. Qc_arith. lra.
Qed.

Lemma sum_Qc_below (a : Qc) (xs : list Qc) :
  Forall (fun x => (x < a)%Qc) xs -> xs <> [] ->
  (sum_Qc xs < a * Qc_of_nat (List.length xs))%Qc.
Proof.
  intros Hall Hne. destruct Hall as [|x xs Hx Hall]; [congruence|].
  assert (H : (sum_Qc xs <= a * Qc_of_nat (List.length xs))%Qc).
  { apply sum_Qc_upper. eapply Forall_impl; [|exact Hall].
    intros y. apply Qclt_le_weak. }
  cbn [List.length sum_Qc fold_right]. fold (sum_Qc xs).
  rewrite Qc_of_nat_S. Qc_arith. lra.
Qed.

Lemma Qclt_dec (x y : Qc) : {(x < y)%Qc} + {~ (x < y)%Qc}.
Proof.
  destruct (Qclt_le_dec x y) as [H|H]; [now left | right].
  now apply Qcle_not_lt.
Defined.

(** [m] is the arithmetic mean of [xs]: a finite number whose product
    with the count is the sum, lying between two of the values. *)
Definition mean_of (xs : list Qc) (m : pyfloat) : Prop :=
  exists a lo hi,
    m = Finite a
    /\ (a * Qc_of_nat (List.length xs))%Qc = sum_Qc xs
    /\ In lo xs /\ In hi xs /\ (lo <= a)%Qc /\ (a <= hi)%Qc.

Lemma mean_spec (xs : list Qc) : xs <> [] -> mean_of xs (mean xs).
Proof.
  intros Hne.
  set (n := Qc_of_nat (List.length xs)).
  assert (Hn : n <> 0%Qc).
  { apply Qc_of_nat_neq_0. destruct xs; [congruence | simpl; lia]. }
  set (a := (sum_Qc xs / n)%Qc).
  assert (Ha : (a * n)%Qc = sum_Qc xs).
  { unfold a. rewrite Qcmult_comm. now apply Qcmult_div_r. }
  assert (Hlo : exists lo, In lo xs /\ (lo <= a)%Qc).
  { destruct (Forall_Exists_dec (fun x => (a < x)%Qc)
                (fun x => Qclt_dec a x) xs) as [Hall|Hex].
    - exfalso. pose proof (sum_Qc_above a xs Hall Hne) as H.
      fold n in H. rewrite Ha in H. exact (Qclt_not_eq _ _ H eq_refl).
    - apply Exists_exists in Hex as (lo & Hin & Hlo).
      exists lo. split; trivial. now apply Qcnot_lt_le. }
  assert (Hhi : exists hi, In hi xs /\ (a <= hi)%Qc).
  { destruct (Forall_Exists_dec (fun x => (x < a)%Qc)
                (fun x => Qclt_dec x a) xs) as [Hall|Hex].
    - exfalso. pose proof (sum_Qc_below a xs Hall Hne) as H.
      fold n in H. rewrite Ha in H. exact (Qclt_not_eq _ _ H eq_refl).
    - apply Exists_exists in Hex as (hi & Hin & Hhi).
      exists hi. split; trivial. now apply Qcnot_lt_le. }
  destruct Hlo as (lo & Hlo1 & Hlo2), Hhi as (hi & Hhi1 & Hhi2).
  exists a, lo, hi. repeat split; trivial.
  unfold mean. destruct xs; [congruence | reflexivity].
Qed.



(** ** Standard deviation *)

Lemma Qsquare_nonneg (a : Q) : (0 <= a * a)%Q.
Proof. unfold Qle, Qmult. simpl. nia. Qed.

Lemma Qc_square_nonneg (a : Qc) : (0 <= a * a)%Qc.
Proof. Qc_arith. apply Qsquare_nonneg. Qed.

Lemma sum_Qc_nonneg (xs : list Qc) :
  Forall (fun x => (0 <= x)%Qc) xs -> (0 <= sum_Qc xs)%Qc.
Proof.
  induction 1 as [|x xs Hx _ IH]; simpl.
  - apply Qcle_refl.
  - fold (sum_Qc xs). Qc_arith. lra.
Qed.

Lemma sum_Qc_zero_inv (xs : list Qc) :
  Forall (fun x => (0 <= x)%Qc) xs -> sum_Qc xs = 0%Qc ->
  Forall (fun x => x = 0%Qc) xs.
Proof.
  induction 1 as [|x xs Hx Hall IH]; simpl; [constructor|].
  fold (sum_Qc xs). intros E.
  pose proof (sum_Qc_nonneg xs Hall) as Hs.
  assert (Hx0 : x = 0%Qc).
  { apply Qcle_antisym; trivial.
    replace x with (0 - sum_Qc xs)%Qc by (rewrite <- E; ring).
    Qc_arith. lra. }
  constructor; trivial. apply IH. rewrite Hx0 in E.
  now rewrite Qcplus_0_l in E.
Qed.

Lemma sum_Qc_constant (c : Qc) (xs : list Qc) :
  Forall (fun x => x = c) xs ->
  sum_Qc xs = (c * Qc_of_nat (List.length xs))%Qc.
Proof.
  intros H. apply Qcle_antisym.
  - apply sum_Qc_upper. eapply Forall_impl; [|exact H].
    intros x ->. apply Qcle_refl.
  - apply sum_Qc_lower. eapply Forall_impl; [|exact H].
    intros x ->. apply Qcle_refl.
Qed.

Lemma Qcdiv_nonneg (s d : Qc) : (0 <= s)%Qc -> (0 < d)%Qc -> (0 <= s / d)%Qc.
Proof.
  intros Hs Hd. unfold Qcdiv.
  rewrite <- (Qcmult_0_l (/ d)). apply Qcmult_le_compat_r; trivial.
  unfold Qcinv. Qc_arith. apply Qinv_le_0_compat. lra.
Qed.

Lemma Qcdiv_eq_0 (s d : Qc) : d <> 0%Qc -> ((s / d)%Qc = 0%Qc <-> s = 0%Qc).
Proof.
  intros Hd. split.
  - intros E. rewrite <- (Qcmult_div_r s d Hd), E. ring.
  - intros ->. unfold Qcdiv. ring.
Qed.

(** The unbiased variance of at least two values: non-negative, and zero
    exactly when the values are all the same. *)
Lemma std_spec (a b : Qc) (xs : list Qc) :
  exists v,
    std (a :: b :: xs) = SqrtOf (Finite v)
    /\ (0 <= v)%Qc
    /\ (v = 0%Qc <-> Forall (fun x => x = a) (a :: b :: xs)).
Proof.
  set (l := a :: b :: xs).
  set (n := Qc_of_nat (List.length l)).
  set (m := (sum_Qc l / n)%Qc).
  set (sq := map (fun x => (x - m) * (x - m))%Qc l).
  assert (Hn : n <> 0%Qc) by (apply Qc_of_nat_neq_0; simpl; lia).
  assert (Hd : (0 < n - 1)%Qc).
  { unfold n, l. cbn [List.length]. rewrite Qc_of_nat_S.
    replace (Qc_of_nat (S (List.length xs)) + 1 - 1)%Qc
      with (Qc_of_nat (S (List.length xs))) by ring.
    apply Qc_of_nat_pos. lia. }
  assert (Hd' : (n - 1)%Qc <> 0%Qc).
  { intros E. rewrite E in Hd. exact (Qclt_not_eq _ _ Hd eq_refl). }
  assert (Hsq : Forall (fun x => (0 <= x)%Qc) sq).
  { apply Forall_forall. intros y (x & <- & _) % in_map_iff.
    apply Qc_square_nonneg. }
  exists (sum_Qc sq / (n - 1))%Qc. split; [reflexivity|]. split.
  - apply Qcdiv_nonneg; trivial. now apply sum_Qc_nonneg.
  - rewrite (Qcdiv_eq_0 _ _ Hd'). split.
    + intros E. apply (sum_Qc_zero_inv sq Hsq) in E.
      assert (Hm : Forall (fun x => x = m) l).
      { apply Forall_forall. intros x Hx.
        rewrite Forall_forall in E.
        specialize (E ((x - m) * (x - m))%Qc).
        assert (H0 : ((x - m) * (x - m))%Qc = 0%Qc).
        { apply E. unfold sq. apply in_map_iff. eauto. }
        apply Qcmult_integral in H0.
        assert (H1 : (x - m)%Qc = 0%Qc) by tauto.
        replace x with ((x - m) + m)%Qc by ring. rewrite H1. ring. }
      assert (Ha : a = m).
      { rewrite Forall_forall in Hm. apply Hm. now left. }
      now rewrite Ha.
    + intros Hall.
      assert (Hm : m = a).
      { unfold m. rewrite (sum_Qc_constant a l Hall). fold n.
        now apply Qcdiv_mult_l. }
      unfold sq. rewrite (map_ext_in _ (fun _ => 0%Qc)).
      * apply sum_Qc_zero.
      * intros x Hx. rewrite Forall_forall in Hall.
        rewrite (Hall x Hx), Hm. ring.
Qed.



(** ** Median *)

Lemma insert_sorted_perm (x : Qc) (l : list Qc) :
  Permutation (x :: l) (insert_sorted x l).
Proof.
  induction l as [|y t IH]; simpl; [reflexivity|].
  destruct (Qcltb y x); [|reflexivity].
  transitivity (y :: x :: t); [constructor | now constructor].
Qed.

Lemma sort_values_perm (xs : list Qc) : Permutation xs (sort_values xs).
Proof.
  unfold sort_values. induction xs as [|x xs IH]; simpl; [constructor|].
  transitivity (x :: fold_right insert_sorted [] xs);
    [now constructor | apply insert_sorted_perm].
Qed.

Lemma insert_sorted_Sorted (x : Qc) (l : list Qc) :
  Sorted Qcle l -> Sorted Qcle (insert_sorted x l).
Proof.
  induction 1 as [|y t St IH Hd]; simpl.
  - repeat constructor.
  - destruct (Qcltb y x) eqn:E.
    + apply Qcltb_lt, Qclt_le_weak in E.
      constructor; trivial.
      destruct t as [|z t']; simpl; [now constructor|].
      destruct (Qcltb z x); constructor; trivial. now inversion Hd.
    + apply Qcltb_ge in E. constructor; [now constructor | now constructor].
Qed.

Lemma sort_values_sorted (xs : list Qc) :
  StronglySorted Qcle (sort_values xs).
Proof.
  apply Sorted_StronglySorted; [exact Qcle_trans|].
  unfold sort_values. induction xs; simpl;
    [constructor | now apply insert_sorted_Sorted].
Qed.

Lemma sorted_nth_le (l : list Qc) :
  StronglySorted Qcle l ->
  forall i j, (i <= j)%nat -> (j < List.length l)%nat ->
    (nth i l 0 <= nth j l 0)%Qc.
Proof.
  induction 1 as [|a l Hs IH Hall]; intros i j Hij Hj; simpl in Hj; [lia|].
  destruct i as [|i], j as [|j]; simpl; try lia.
  - apply Qcle_refl.
  - rewrite Forall_forall in Hall. apply Hall, nth_In. lia.
  - apply IH; lia.
Qed.

Lemma Qc_midpoint (a b : Qc) :
  (a <= b)%Qc ->
  (a <= (a + b) / Qc_of_nat 2)%Qc /\ ((a + b) / Qc_of_nat 2 <= b)%Qc.
Proof.
  intros H.
  replace ((a + b) / Qc_of_nat 2)%Qc
    with ((a + b) * Q2Qc (1 # 2))%Qc.
  - Qc_arith. split; lra.
  - unfold Qcdiv. f_equal; try (apply Qc_is_canon; reflexivity).
Qed.

(** The median of a non-empty list splits it into a lower part of half
    the length, rounded down, whose values are at most the median, and
    an upper part whose values are at least the median. *)
Lemma median_spec (xs : list Qc) :
  xs <> [] ->
  exists med lower upper,
    median xs = Finite med
    /\ Permutation xs (lower ++ upper)%list
    /\ List.length lower = (List.length xs / 2)%nat
    /\ Forall (fun x => (x <= med)%Qc) lower
    /\ Forall (fun x => (med <= x)%Qc) upper
    /\ (Nat.even (List.length xs) = false -> In med xs).
Proof.
  intros Hne.
  pose proof (sort_values_perm xs) as P.
  pose proof (sort_values_sorted xs) as Hs.
  pose proof (Permutation_length P) as Hlen.
  set (s := sort_values xs) in *.
  set (n := List.length s) in *.
  assert (Hn : (0 < n)%nat).
  { rewrite <- Hlen. destruct xs; [congruence | simpl; lia]. }
  set (k := (n / 2)%nat).
  assert (Hk : (k < n)%nat) by (apply Nat.div_lt; lia).
  assert (Hmed : exists med,
            median xs = Finite med
            /\ (forall i, (i < k)%nat -> (nth i s 0 <= med)%Qc)
            /\ (med <= nth k s 0)%Qc
            /\ (Nat.even n = false -> med = nth k s 0%Qc)).
  { assert (Hunfold : median xs
              = if Nat.even n
                then Finite ((nth (k - 1) s 0 + nth k s 0) / Qc_of_nat 2)%Qc
                else Finite (nth k s 0%Qc)).
    { unfold median. fold s. fold n. fold k.
      destruct n; [lia | reflexivity]. }
    rewrite Hunfold.
    destruct (Nat.even n) eqn:Ev.
    - assert (Hk1 : (1 <= k)%nat).
      { assert (H2 : (2 <= n)%nat).
        { destruct n as [|[|n']]; [lia | discriminate Ev | lia]. }
        apply Nat.div_str_pos. lia. }
      destruct (Qc_midpoint (nth (k - 1) s 0) (nth k s 0)) as [Hlo Hhi].
      { apply sorted_nth_le; trivial; lia. }
      eexists. split; [reflexivity|]. split; [|split; [exact Hhi|]].
      + intros i Hi. eapply Qcle_trans; [|exact Hlo].
        apply sorted_nth_le; trivial; lia.
      + discriminate.
    - eexists. split; [reflexivity|]. split; [|split].
      + intros i Hi. apply sorted_nth_le; trivial; lia.
      + apply Qcle_refl.
      + reflexivity. }
  destruct Hmed as (med & Hmedian & Hlow & Hup & Hodd).
  exists med, (firstn k s), (skipn k s).
  split; [exact Hmedian|]. split; [now rewrite firstn_skipn|]. split.
  { rewrite length_firstn, Hlen. fold n. lia. }
  split; [|split].
  - apply Forall_forall. intros x Hx.
    destruct (In_nth _ _ 0%Qc Hx) as (i & Hi & <-).
    rewrite length_firstn in Hi. rewrite nth_firstn.
    destruct (Nat.ltb_spec i k); [|lia]. apply Hlow. lia.
  - apply Forall_forall. intros x Hx.
    destruct (In_nth _ _ 0%Qc Hx) as (i & Hi & <-).
    rewrite length_skipn in Hi. rewrite nth_skipn.
    eapply Qcle_trans; [exact Hup|].
    apply sorted_nth_le; trivial; fold n; lia.
  - rewrite Hlen. intros Hev. rewrite (Hodd Hev).
    apply Permutation_in with s; [now apply Permutation_sym|].
    apply nth_In. fold n. lia.
Qed.



(** ** Month values for non-negative sales *)

Lemma int_of_Qc_nonneg (q : Qc) : (0 <= q)%Qc -> (0 <= int_of_Qc q)%Z.
Proof.
  destruct q as [[n d] Hc]. unfold int_of_Qc. cbn [this Qnum Qden].
  intros H. Qc_arith. unfold Qle in H. simpl in H.
  apply Z.quot_pos; lia.
Qed.

Lemma trunc_le (q : Qc) : (0 <= q)%Qc -> (trunc q <= q)%Qc.
Proof.
  intros H. destruct (int_of_Qc_truncates q) as [Hpos _].
  now destruct (Hpos H).
Qed.

Lemma sum_Qc_le_pointwise {A : Type} (f g : A -> Qc) (l : list A) :
  (forall a, In a l -> (f a <= g a)%Qc) ->
  (sum_Qc (map f l) <= sum_Qc (map g l))%Qc.
Proof.
  induction l as [|a l IH]; intros H; simpl.
  - apply Qcle_refl.
  - fold (sum_Qc (map f l)). fold (sum_Qc (map g l)).
    assert (H1 : (f a <= g a)%Qc) by (apply H; now left).
    assert (H2 : (sum_Qc (map f l) <= sum_Qc (map g l))%Qc).
    { apply IH. intros b Hb. apply H. now right. }
    Qc_arith. lra.
Qed.

Lemma month_total_nonneg (csv : list (Row DateCell)) (p : Period) :
  Forall (fun r => (0 <= Sales r)%Qc) csv -> (0 <= month_total csv p)%Qc.
Proof.
  intros Hall. apply sum_Qc_nonneg. apply Forall_forall.
  intros x (r & <- & Hr) % in_map_iff. apply filter_In in Hr as [Hr _].
  rewrite Forall_forall in Hall. now apply Hall.
Qed.



(** * Further properties of the retriever *)

(** ** Substring matching *)

Lemma prefix_spec (a b : string) :
  prefix a b = true <-> exists post, b = a ++ post.
Proof.
  revert b. induction a as [|c a IH]; intros [|c' b]; simpl.
  - split; [intros _; now exists EmptyString | reflexivity].
  - split; [intros _; now exists (String c' b) | reflexivity].
  - split; [discriminate | intros (post & E); discriminate].
  - destruct (ascii_dec c c') as [->|N].
    + rewrite IH. split; intros (post & E); exists post; congruence.
    + split; [discriminate | intros (post & E); congruence].
Qed.

Lemma contains_spec (w s : string) : contains w s = true <-> occurs_in w s.
Proof.
  unfold occurs_in. induction s as [|c s IH]; cbn [contains].
  - rewrite prefix_spec. split.
    + intros (post & E). exists EmptyString, post. exact E.
    + intros (pre & post & E). destruct pre; simpl in E.
      * now exists post.
      * discriminate.
  - rewrite orb_true_iff, IH, prefix_spec. split.
    + intros [(post & E)|(pre & post & E)].
      * exists EmptyString, post. exact E.
      * exists (String c pre), post. simpl. now rewrite E.
    + intros (pre & post & E). destruct pre as [|c' pre]; simpl in E.
      * left. now exists post.
      * right. exists pre, post. congruence.
Qed.

Lemma lower_app (a b : string) : lower (a ++ b) = lower a ++ lower b.
Proof. induction a as [|c a IH]; simpl; [reflexivity | now rewrite IH]. Qed.

Lemma lower_char_idempotent (c : ascii) :
  lower_char (lower_char c) = lower_char c.
Proof. destruct c as [[] [] [] [] [] [] [] []]; reflexivity. Qed.

Lemma lower_idempotent (q : string) : lower (lower q) = lower q.
Proof.
  induction q as [|c q IH]; simpl; [reflexivity|].
  now rewrite lower_char_idempotent, IH.
Qed.

Lemma any_in_spec (words : list string) (text : string) :
  any_in words text = true <-> exists w, In w words /\ occurs_in w text.
Proof.
  unfold any_in. rewrite existsb_exists.
  split; intros (w & Hw & H); exists w; split; trivial;
    now apply contains_spec.
Qed.

Section RetrieverMore.
Variable repr_str : string -> string.
Variable repr_float : Qc -> string.

(** X8.  A topic is triggered exactly when one of its words occurs in the
    lowercased question as a substring, at any place, also inside a
    longer word. *)
Theorem topic_triggered_iff_word_occurs (words : list string) (q : string) :
  triggers words q
  <-> exists w pre post, In w words /\ lower q = pre ++ w ++ post.
Proof.
  unfold triggers. rewrite any_in_spec. unfold occurs_in.
  split.
  - intros (w & Hw & pre & post & E). now exists w, pre, post.
  - intros (w & pre & post & Hw & E). exists w. split; trivial.
    now exists pre, post.
Qed.

Lemma triggers_embedded (words : list string) (q pre post : string) :
  triggers words q -> triggers words (pre ++ q ++ post).
Proof.
  unfold triggers. rewrite !any_in_spec. unfold occurs_in.
  intros (w & Hw & a & b & E).
  exists w. split; trivial. exists (lower pre ++ a), (b ++ lower post).
  rewrite !lower_app, E.
  clear. induction (lower pre) as [|c p IH]; simpl.
  - induction a as [|c a IH]; simpl.
    + induction w as [|c w IH]; simpl; [reflexivity | now rewrite IH].
    + now rewrite IH.
  - now rewrite IH.
Qed.

Lemma block_embedded (words : list string) (q pre post : string)
    (lines : list string) (line : string) :
  In line (block words q lines) ->
  In line (block words (pre ++ q ++ post) lines).
Proof.
  unfold block. destruct (any_in words (lower q)) eqn:E; [|intros []].
  pose proof (triggers_embedded words q pre post E) as H.
  unfold triggers in H. now rewrite H.
Qed.

(** X9.  Text added before or after a question removes no topic: every
    topic line returned for the question is returned for the longer
    question, and the longer question never gets the overview line
    alone when the shorter one triggered a topic. *)
Theorem embedding_a_question_keeps_its_topics
    (q pre post : string) (s : Stats) (line : string) :
  In line (topic_blocks repr_str repr_float q s) ->
  In line (final_parts repr_str repr_float (pre ++ q ++ post) s)
  /\ final_parts repr_str repr_float (pre ++ q ++ post) s
     = topic_blocks repr_str repr_float (pre ++ q ++ post) s.
Proof.
  intros Hin.
  assert (H : In line (topic_blocks repr_str repr_float (pre ++ q ++ post) s)).
  { unfold topic_blocks in *.
    repeat (apply in_app_or in Hin as [Hin|Hin];
            [apply in_or_app; left; now apply block_embedded
            |apply in_or_app; right]).
    now apply block_embedded. }
  rewrite final_parts_eq.
  destruct (topic_blocks repr_str repr_float (pre ++ q ++ post) s);
    [destruct H | now split].
Qed.


Lemma In_block (words : list string) (q : string) (lines : list string)
    (line : string) :
  In line (block words q lines) -> In line lines.
Proof. unfold block. destruct (any_in words (lower q)); [trivial | intros []]. Qed.

Lemma block_length (words : list string) (q : string) (lines : list string) :
  (List.length (block words q lines) <= List.length lines)%nat.
Proof. unfold block. destruct (any_in words (lower q)); simpl; lia. Qed.

(** X11.  The overview line is returned exactly when no topic is
    triggered, and then it is the only line; the number of lines
    returned is always between one and eight. *)
Theorem overview_only_without_topic (q : string) (s : Stats) :
  (In (overview_line s) (final_parts repr_str repr_float q s)
   <-> no_trigger q)
  /\ (no_trigger q ->
      final_parts repr_str repr_float q s = [overview_line s])
  /\ (1 <= List.length (final_parts repr_str repr_float q s) <= 8)%nat.
Proof.
  assert (Hnot : ~ In (overview_line s) (topic_blocks repr_str repr_float q s)).
  { unfold topic_blocks. intros Hin.
    repeat (apply in_app_or in Hin as [Hin|Hin];
            [apply In_block in Hin; simpl in Hin;
             intuition discriminate|]).
    apply In_block in Hin. simpl in Hin. intuition discriminate. }
  assert (Hlen : (List.length (topic_blocks repr_str repr_float q s) <= 8)%nat).
  { unfold topic_blocks. rewrite !length_app.
    pose proof (block_length revenue_words q [revenue_line s]).
    pose proof (block_length average_words q
                  [average_transaction_line s; average_age_line s;
                   average_satisfaction_line s]).
    pose proof (block_length product_words q
                  [best_product_line s;
                   sales_by_product_line repr_str repr_float s]).
    pose proof (block_length region_words q
                  [region_line repr_str repr_float s]).
    pose proof (block_length trend_words q [trend_line repr_str s]).
    simpl in *. lia. }
  rewrite final_parts_eq. split; [|split].
  - split.
    + intros Hin.
      destruct (topic_blocks repr_str repr_float q s) eqn:E;
        [|contradiction].
      unfold topic_blocks, block, no_trigger in *.
      destruct (any_in revenue_words (lower q)); [discriminate E|].
      destruct (any_in average_words (lower q)); [discriminate E|].
      destruct (any_in product_words (lower q)); [discriminate E|].
      destruct (any_in region_words (lower q)); [discriminate E|].
      destruct (any_in trend_words (lower q)); [discriminate E|].
      repeat split.
    + intros Hno. rewrite (topic_blocks_untriggered _ _ q s Hno).
      now left.
  - intros Hno. now rewrite (topic_blocks_untriggered _ _ q s Hno).
  - destruct (topic_blocks repr_str repr_float q s); simpl in *; lia.
Qed.

(** What the retriever reads of the index. *)
Definition retriever_view (s : Stats) :=
  (total_revenue s, average_transaction s, avg_customer_age s,
   avg_satisfaction s, best_selling_product s, sales_by_product s,
   sales_by_region s, last_n 6 (monthly_trend s)).

(** X12.  The retriever never reads [median_sales], [std_dev] or the
    entries of [monthly_trend] before the last six: two indexes that
    agree on everything else get the same context for every question. *)
Theorem retriever_never_reads_median_or_std (q : string) (s s' : Stats) :
  retriever_view s = retriever_view s' ->
  custom_retriever repr_str repr_float q s
  = custom_retriever repr_str repr_float q s'.
Proof.
  unfold retriever_view. intros H.
  injection H as H1 H2 H3 H4 H5 H6 H7 H8.
  rewrite !custom_retriever_eq, !final_parts_eq.
  unfold topic_blocks, overview_line, revenue_line,
    average_transaction_line, average_age_line, average_satisfaction_line,
    best_product_line, sales_by_product_line, region_line, trend_line,
    recent_months.
  now rewrite H1, H2, H3, H4, H5, H6, H7, H8.
Qed.
End RetrieverMore.

Lemma embedding_a_question_keeps_its_topics_witness :
  In (best_product_line eight_month_stats)
     (topic_blocks repr_str_plain repr_float_tenths "top" eight_month_stats)
  /\ In (best_product_line eight_month_stats)
        (final_parts repr_str_plain repr_float_tenths
           ("please s" ++ "top" ++ " the press") eight_month_stats).
Proof.
  assert (H : In (best_product_line eight_month_stats)
                (topic_blocks repr_str_plain repr_float_tenths "top"
                   eight_month_stats)) by (left; reflexivity).
  split; [exact H|].
  apply (embedding_a_question_keeps_its_topics repr_str_plain
           repr_float_tenths "top" "please s" " the press"
           eight_month_stats _ H).
Defined.


Lemma overview_only_without_topic_witness :
  no_trigger "xyz nonsense"
  /\ final_parts repr_str_plain repr_float_tenths "xyz nonsense"
       eight_month_stats
     = [overview_line eight_month_stats].
Proof.
  assert (H : no_trigger "xyz nonsense") by (repeat split).
  split; [exact H|].
  apply (proj1 (proj2 (overview_only_without_topic repr_str_plain
                         repr_float_tenths "xyz nonsense"
                         eight_month_stats)) H).
Defined.

(** The index [eight_month_stats] with another median, another standard
    deviation and its two oldest months removed. *)
Definition six_month_stats : Stats :=
  {| total_revenue := total_revenue eight_month_stats;
     average_transaction := average_transaction eight_month_stats;
     median_sales := NaN;
     std_dev := SqrtOf NaN;
     best_selling_product := best_selling_product eight_month_stats;
     sales_by_product := sales_by_product eight_month_stats;
     sales_by_region := sales_by_region eight_month_stats;
     monthly_trend := skipn 2 (monthly_trend eight_month_stats);
     avg_customer_age := avg_customer_age eight_month_stats;
     avg_satisfaction := avg_satisfaction eight_month_stats |}.

Lemma retriever_never_reads_median_or_std_witness :
  retriever_view eight_month_stats = retriever_view six_month_stats
  /\ custom_retriever repr_str_plain repr_float_tenths
       "monthly trend and average" eight_month_stats
     = custom_retriever repr_str_plain repr_float_tenths
         "monthly trend and average" six_month_stats.
Proof.
  split; [reflexivity|].
  apply retriever_never_reads_median_or_std. reflexivity.
Defined.

(** * The rest of the script

    The language model, the cached load, the session state and the three
    pages.  Titles, headers, captions and the spinner show fixed text and
    are left out of what a run shows. *)

(** ** Part 2 of the program: the language model client *)

Record ChatOpenAI : Type := {
  api_key : string;
  model_name : string;
  temperature : Qc
}.

(** [os.environ], a mapping from names to values. *)
Definition Environ : Type := string -> option string.

(** [os.environ.get(key, default)]. *)
Definition environ_get (environ : Environ) (key default : string) : string :=
  match environ key with
  | Some value => value
  | None => default
  end.

Inductive LlmResult : Type :=
| LlmReady (llm : ChatOpenAI)
| LlmStopped (shown : string).   (* st.error(shown); st.stop() *)

Definition key_not_found_text : string :=
  "⚠️ OpenAI API key not found! Please set it in terminal with: set OPENAI_API_KEY=your_key".

(** [get_llm()]. *)
Definition get_llm (environ : Environ) : LlmResult :=
  let key := environ_get environ "OPENAI_API_KEY" EmptyString in
  match key with
  | EmptyString => LlmStopped key_not_found_text
  | String _ _ =>
      LlmReady {| api_key := key; model_name := "gpt-3.5-turbo";
                  temperature := Q2Qc (3 # 10) |}
  end.

(** ** Part 4 of the program: the chain *)

Definition system_text : string :=
  "You are InsightForge, an expert Business Intelligence Analyst."
  ++ newline
  ++ "Use the provided statistical context to answer questions accurately and professionally."
  ++ newline
  ++ "If the answer is not in the context, politely say you don't have that information.".

(** The human message, [{context}] and [{question}] filled in. *)
Definition human_text (context question : string) : string :=
  "STATISTICAL CONTEXT:" ++ newline
  ++ context ++ newline ++ newline
  ++ "QUESTION: " ++ question ++ newline ++ newline
  ++ "Provide a clear, professional business analysis:".

(** [prompt | llm | StrOutputParser()]: the prompt and the parser are
    fixed, the chain is known by its client. *)
Record Chain : Type := { chain_llm : ChatOpenAI }.

(** [create_rag_chain(llm)]. *)
Definition create_rag_chain (llm : ChatOpenAI) : Chain :=
  {| chain_llm := llm |}.

(** ** The main script *)

Record Message : Type := { role : string; content : string }.

(** [st.session_state]; [None] for a key that is not in it. *)
Record Session : Type := {
  rag_chain : option Chain;
  ui_messages : option (list Message)
}.

(** What outlives a run: the cache of [st.cache_data] and the session. *)
Record AppState : Type := {
  data_cache : option (DataFrame * Stats);
  session : Session
}.

Inductive Page : Type := ChatAssistant | Dashboard | ModelEvaluation.

(** The widgets of a run: the page chosen in the sidebar, the text sent
    in the chat input, and whether "Run Evaluation" was pressed. *)
Record Interaction : Type := {
  page : Page;
  chat_input : option string;
  run_evaluation : bool
}.

Record EvalRow : Type := {
  Question : string;
  Expected : string;
  Model_Response : string;
  Status : string
}.

Inductive Shown : Type :=
| LoadErrorBanner (e : StError)
| ErrorBanner (text : string)
| SidebarMetric (label value : string)
| ChatBubble (who text : string)
| ChatErrorBubble (who text : string)
| Metric (label value : string)
| Chart (title : string) (rows : list (string * Qc))
| Histogram (column : string) (values : list Qc)
| SuccessBanner (text : string)
| ResultsTable (rows : list EvalRow).

Definition greeting : Message :=
  {| role := "assistant";
     content := "Hello! I'm InsightForge, your AI Business Intelligence Assistant. Ask me about sales trends, products, regions, or any business metrics!" |}.

Definition user_message (text : string) : Message :=
  {| role := "user"; content := text |}.

Definition assistant_message (text : string) : Message :=
  {| role := "assistant"; content := text |}.

(** [load_and_process_data] under [@st.cache_data]: a value returned
    once is returned again without reading the file; a run that stops
    caches nothing. *)
Definition cached_load (cache : option (DataFrame * Stats))
    (file : option (list (Row DateCell)))
    : Outcome (DataFrame * Stats) * option (DataFrame * Stats) :=
  match cache with
  | Some result => (Returned result, cache)
  | None =>
      match load_and_process_data file with
      | Returned result => (Returned result, Some result)
      | Stopped shown => (Stopped shown, None)
      end
  end.

(** [s[:n]]: the first [n] characters of UTF-8 text.  A byte
    [10xxxxxx] continues the character before it. *)
Definition is_continuation (c : ascii) : bool :=
  (128 <=? nat_of_ascii c)%nat && (nat_of_ascii c <? 192)%nat.

Fixpoint first_chars (n : nat) (s : string) : string :=
  match s with
  | EmptyString => EmptyString
  | String c t =>
      if is_continuation c then String c (first_chars n t)
      else match n with
           | O => EmptyString
           | S k => String c (first_chars k t)
           end
  end.

Section Script.
Variable repr_str : string -> string.
Variable repr_float : Qc -> string.

(** The hosted model behind [ChatOpenAI]: given the client and the
    messages, the text of the reply, or the text of the exception it
    raises. *)
Variable completion : ChatOpenAI -> list (string * string) -> string + string.

(** [str.lower] on arbitrary text, as used on model replies. *)
Variable text_lower : string -> string.

(** [chain.invoke({"context": ..., "question": ...})]. *)
Definition invoke (chain : Chain) (context question : string)
    : string + string :=
  completion (chain_llm chain)
    [("system", system_text); ("human", human_text context question)].

Definition sidebar (kb : Stats) : list Shown :=
  [ SidebarMetric "Total Revenue" ("$" ++ format_f true 0 (total_revenue kb));
    SidebarMetric "Avg Transaction"
      ("$" ++ format_f false 2 (average_transaction kb));
    SidebarMetric "Best Product" (best_selling_product kb) ].

(** Page 1.  Returns the message list after the run and what is shown. *)
Definition chat_page (chain : Chain) (kb : Stats) (messages : list Message)
    (input : option string) : list Message * list Shown :=
  let history := map (fun m => ChatBubble (role m) (content m)) messages in
  match input with
  | None | Some EmptyString => (messages, history)
  | Some prompt =>
      let messages1 := (messages ++ [user_message prompt])%list in
      let context_str := custom_retriever repr_str repr_float prompt kb in
      match invoke chain context_str prompt with
      | inr response =>
          ((messages1 ++ [assistant_message response])%list,
           (history ++ [ChatBubble "user" prompt;
                        ChatBubble "assistant" response])%list)
      | inl e =>
          let error_msg := "Error: " ++ e in
          ((messages1 ++ [assistant_message error_msg])%list,
           (history ++ [ChatBubble "user" prompt;
                        ChatErrorBubble "assistant" error_msg])%list)
      end
  end.

(** Page 2. *)
Definition dashboard_page (df : DataFrame) (kb : Stats) : list Shown :=
  [ Metric "Total Revenue" ("$" ++ format_f true 0 (total_revenue kb));
    Metric "Avg Transaction" ("$" ++ format_f false 2 (average_transaction kb));
    Metric "Avg Satisfaction"
      (format_f false 2 (avg_satisfaction kb) ++ "/5.0");
    Metric "Transactions" (commas (str_nat (List.length df)));
    Chart "Product Performance" (groupby_sum Product Sales df);
    Chart "Regional Distribution" (groupby_sum Region Sales df);
    Chart "Monthly Sales Trend"
      (map (fun kv => (str_period (fst kv), snd kv))
           (groupby_sum (fun r => to_period_M (Date r)) Sales df));
    Histogram "Customer_Age"
      (map (fun r => Q2Qc (inject_Z (Customer_Age r))) df);
    Histogram "Customer_Satisfaction" (map Customer_Satisfaction df) ].

(** Page 3. *)
Definition test_cases (kb : Stats) : list (string * string) :=
  [ ("What is the total revenue?", "$" ++ format_f true 2 (total_revenue kb));
    ("Which product sells the most?", best_selling_product kb);
    ("What is the average transaction?",
     "$" ++ format_f false 2 (average_transaction kb)) ].

Definition pass_text : string := "✅ PASS".
Definition check_text : string := "⚠️ CHECK".

(** One turn of the loop over the test cases. *)
Definition evaluate_case (chain : Chain) (kb : Stats) (test : string * string)
    : string + EvalRow :=
  let context := custom_retriever repr_str repr_float (fst test) kb in
  match invoke chain context (fst test) with
  | inl e => inl e
  | inr prediction =>
      let contains_answer :=
        contains (text_lower (snd test)) (text_lower prediction) in
      inr {| Question := fst test;
             Expected := snd test;
             Model_Response := first_chars 150 prediction ++ "...";
             Status := if contains_answer then pass_text else check_text |}
  end.

(** The loop: the rows in order, or the first exception. *)
Fixpoint evaluate_cases (chain : Chain) (kb : Stats)
    (tests : list (string * string)) : string + list EvalRow :=
  match tests with
  | [] => inr []
  | test :: rest =>
      match evaluate_case chain kb test with
      | inl e => inl e
      | inr row =>
          match evaluate_cases chain kb rest with
          | inl e => inl e
          | inr rows => inr (row :: rows)
          end
      end
  end.

(** [sum(1 for r in results if "✅" in r['Status'])]. *)
Definition count_passed (rows : list EvalRow) : nat :=
  List.length (filter (fun r => contains "✅" (Status r)) rows).

Definition accuracy_text (rows : list EvalRow) : string :=
  format_f false 0
    (Finite (Qc_of_nat (count_passed rows) / Qc_of_nat (List.length rows)
             * Qc_of_nat 100)%Qc)
  ++ "%".

Definition evaluation_page (chain : Chain) (kb : Stats) (pressed : bool)
    : list Shown :=
  if pressed then
    match evaluate_cases chain kb (test_cases kb) with
    | inl e => [ErrorBanner ("❌ Error: " ++ e)]
    | inr rows =>
        [ SuccessBanner "✅ Evaluation Complete!";
          ResultsTable rows;
          Metric "Accuracy" (accuracy_text rows) ]
    end
  else [].

(** One run of the script, top to bottom. *)
Definition run_script (file : option (list (Row DateCell)))
    (environ : Environ) (state : AppState) (ui : Interaction)
    : AppState * list Shown :=
  match cached_load (data_cache state) file with
  | (Stopped shown, cache) =>
      ({| data_cache := cache; session := session state |},
       [LoadErrorBanner shown])
  | (Returned (df, kb), cache) =>
      match get_llm environ with
      | LlmStopped text =>
          ({| data_cache := cache; session := session state |},
           [ErrorBanner text])
      | LlmReady llm =>
          let chain :=
            match rag_chain (session state) with
            | Some chain => chain
            | None => create_rag_chain llm
            end in
          let messages :=
            match ui_messages (session state) with
            | Some messages => messages
            | None => [greeting]
            end in
          let '(messages', shown) :=
            match page ui with
            | ChatAssistant => chat_page chain kb messages (chat_input ui)
            | Dashboard => (messages, dashboard_page df kb)
            | ModelEvaluation =>
                (messages, evaluation_page chain kb (run_evaluation ui))
            end in
          ({| data_cache := cache;
              session := {| rag_chain := Some chain;
                            ui_messages := Some messages' |} |},
           (sidebar kb ++ shown)%list)
      end
  end.

(** A series of runs with the same file and environment. *)
Definition run_all (file : option (list (Row DateCell))) (environ : Environ)
    (state : AppState) (uis : list Interaction) : AppState :=
  fold_left (fun st ui => fst (run_script file environ st ui)) uis state.
End Script.

(** The state of a fresh process and session. *)
Definition fresh_state : AppState :=
  {| data_cache := None;
     session := {| rag_chain := None; ui_messages := None |} |}.

(** * Properties of the script *)

Section ScriptFacts.
Variable repr_str : string -> string.
Variable repr_float : Qc -> string.
Variable completion : ChatOpenAI -> list (string * string) -> string + string.
Variable text_lower : string -> string.

(** The environment holds a non-empty API key. *)
Definition has_key (environ : Environ) : Prop :=
  exists c k, environ "OPENAI_API_KEY" = Some (String c k).

Lemma get_llm_ready (environ : Environ) :
  has_key environ <-> exists llm, get_llm environ = LlmReady llm.
Proof.
  unfold has_key, get_llm, environ_get. split.
  - intros (c & k & ->). eauto.
  - destruct (environ "OPENAI_API_KEY") as [[|c k]|];
      intros (llm & E); try discriminate E. eauto.
Qed.

Lemma get_llm_stopped (environ : Environ) :
  ~ has_key environ -> get_llm environ = LlmStopped key_not_found_text.
Proof.
  unfold has_key, get_llm, environ_get. intros H.
  destruct (environ "OPENAI_API_KEY") as [[|c k]|]; trivial.
  elim H. eauto.
Qed.


(** X14.  Once the data is cached, a run does not look at the file: it
    behaves the same for every content of the file, also for a missing
    one, and it keeps the cache. *)
Theorem cached_data_hides_the_file
    (file file' : option (list (Row DateCell))) (environ : Environ)
    (state : AppState) (ui : Interaction) (r : DataFrame * Stats) :
  data_cache state = Some r ->
  run_script repr_str repr_float completion text_lower file environ state ui
  = run_script repr_str repr_float completion text_lower file' environ
      state ui
  /\ data_cache
       (fst (run_script repr_str repr_float completion text_lower
               file environ state ui))
     = Some r.
Proof.
  intros Hc. unfold run_script, cached_load. rewrite Hc.
  split; [reflexivity|].
  destruct r as [df kb]. destruct (get_llm environ); [|reflexivity].
  destruct (page ui); simpl; trivial.
  now destruct (chat_page _ _ _ _ _ _ _).
Qed.

(** X15.  The chain of a session is built once: a run never replaces a
    chain that the session holds, whatever the API key of that run. *)
Theorem session_chain_is_never_replaced
    (file : option (list (Row DateCell))) (environ : Environ)
    (state : AppState) (ui : Interaction) (chain : Chain) :
  rag_chain (session state) = Some chain ->
  rag_chain
    (session (fst (run_script repr_str repr_float completion text_lower
                     file environ state ui)))
  = Some chain.
Proof.
  intros Hc. unfold run_script.
  destruct (cached_load (data_cache state) file) as [[[df kb]|e] cache];
    simpl; trivial.
  destruct (get_llm environ); simpl; trivial.
  rewrite Hc. destruct (page ui); simpl; trivial.
  now destruct (chat_page _ _ _ _ _ _ _).
Qed.
End ScriptFacts.

Section ConversationFacts.
Variable repr_str : string -> string.
Variable repr_float : Qc -> string.
Variable completion : ChatOpenAI -> list (string * string) -> string + string.
Variable text_lower : string -> string.

(** What the assistant says to a prompt: the reply of the model to the
    context retrieved for that prompt, or the text of its exception. *)
Definition reply (chain : Chain) (kb : Stats) (prompt : string) : string :=
  match invoke completion chain
          (custom_retriever repr_str repr_float prompt kb) prompt with
  | inr response => response
  | inl e => "Error: " ++ e
  end.

(** The messages a run adds: a user message and an assistant message for
    a non-empty prompt on the chat page, nothing otherwise. *)
Definition exchange (chain : Chain) (kb : Stats) (ui : Interaction)
    : list Message :=
  match page ui, chat_input ui with
  | ChatAssistant, Some (String c p) =>
      [user_message (String c p);
       assistant_message (reply chain kb (String c p))]
  | _, _ => []
  end.

Lemma chat_page_messages (chain : Chain) (kb : Stats)
    (messages : list Message) (ui : Interaction) :
  page ui = ChatAssistant ->
  fst (chat_page repr_str repr_float completion chain kb messages
         (chat_input ui))
  = (messages ++ exchange chain kb ui)%list.
Proof.
  intros Hp. unfold exchange, chat_page, reply. rewrite Hp.
  destruct (chat_input ui) as [[|c p]|]; simpl;
    try (now rewrite app_nil_r).
  destruct (invoke completion chain _ _); simpl;
    now rewrite <- app_assoc.
Qed.

Lemma run_script_session (file : option (list (Row DateCell)))
    (environ : Environ) (state : AppState) (ui : Interaction)
    (df : DataFrame) (kb : Stats) (llm : ChatOpenAI) (chain : Chain)
    (messages : list Message) :
  fst (cached_load (data_cache state) file) = Returned (df, kb) ->
  get_llm environ = LlmReady llm ->
  chain = match rag_chain (session state) with
          | Some c => c
          | None => create_rag_chain llm
          end ->
  messages = match ui_messages (session state) with
             | Some m => m
             | None => [greeting]
             end ->
  let state' := fst (run_script repr_str repr_float completion text_lower
                       file environ state ui) in
  data_cache state' = Some (df, kb)
  /\ session state'
     = {| rag_chain := Some chain;
          ui_messages := Some (messages ++ exchange chain kb ui)%list |}.
Proof.
  intros Hload Hllm -> ->. unfold run_script.
  assert (Hc : snd (cached_load (data_cache state) file) = Some (df, kb)).
  { unfold cached_load in *. destruct (data_cache state) as [r|].
    - simpl in *. congruence.
    - destruct (load_and_process_data file); simpl in *; congruence. }
  destruct (cached_load (data_cache state) file) as [o cache].
  simpl in Hload, Hc. subst o cache. rewrite Hllm.
  destruct (page ui) eqn:Hp.
  - pose proof (chat_page_messages
                  (match rag_chain (session state) with
                   | Some c => c
                   | None => create_rag_chain llm
                   end) kb
                  (match ui_messages (session state) with
                   | Some m => m
                   | None => [greeting]
                   end) ui Hp) as H.
    destruct (chat_page _ _ _ _ _ _ _) as [messages' shown].
    simpl in *. now rewrite H.
  - simpl. unfold exchange. rewrite Hp. now rewrite app_nil_r.
  - simpl. unfold exchange. rewrite Hp. now rewrite app_nil_r.
Qed.

Lemma run_all_messages (file : option (list (Row DateCell)))
    (environ : Environ) (df : DataFrame) (kb : Stats) (llm : ChatOpenAI)
    (chain : Chain) (uis : list Interaction) :
  get_llm environ = LlmReady llm ->
  forall (state : AppState) (messages : list Message),
    data_cache state = Some (df, kb) ->
    session state
    = {| rag_chain := Some chain; ui_messages := Some messages |} ->
    let state' := run_all repr_str repr_float completion text_lower
                    file environ state uis in
    data_cache state' = Some (df, kb)
    /\ session state'
       = {| rag_chain := Some chain;
            ui_messages :=
              Some (messages ++ flat_map (exchange chain kb) uis)%list |}.
Proof.
  intros Hllm. unfold run_all.
  induction uis as [|ui uis IH]; intros state messages Hc Hs; simpl.
  - now rewrite app_nil_r.
  - destruct (run_script_session file environ state ui df kb llm chain
                messages) as [Hc' Hs']; trivial.
    + unfold cached_load. now rewrite Hc.
    + now rewrite Hs.
    + now rewrite Hs.
    + destruct (IH _ _ Hc' Hs') as [H1 H2]. split; trivial.
      rewrite H2. now rewrite <- app_assoc.
Qed.

(** X16.  When the file loads and the API key is set, the messages of
    the session after a series of runs that starts with a fresh process
    are the greeting followed, for each run on the chat page with a
    non-empty prompt and in the order of the runs, by the prompt as a
    user message and the reply to it as an assistant message.  Runs on
    the other pages and runs without a prompt add nothing, and no message
    is ever altered or removed. *)
Theorem conversation_is_the_greeting_and_the_exchanges
    (file : option (list (Row DateCell))) (environ : Environ)
    (df : DataFrame) (kb : Stats) (llm : ChatOpenAI)
    (ui : Interaction) (uis : list Interaction) :
  load_and_process_data file = Returned (df, kb) ->
  get_llm environ = LlmReady llm ->
  ui_messages
    (session (run_all repr_str repr_float completion text_lower
                file environ fresh_state (ui :: uis)))
  = Some (greeting
          :: flat_map (exchange (create_rag_chain llm) kb) (ui :: uis)).
Proof.
  intros Hload Hllm. unfold run_all. cbn [fold_left].
  destruct (run_script_session file environ fresh_state ui df kb llm
              (create_rag_chain llm) [greeting]) as [Hc Hs]; trivial.
  { unfold cached_load. simpl. now rewrite Hload. }
  destruct (run_all_messages file environ df kb llm (create_rag_chain llm)
              uis Hllm _ _ Hc Hs) as [_ H].
  unfold run_all in H. rewrite H. reflexivity.
Qed.

(** The message a chat bubble shows. *)
Definition shown_message (w : Shown) : option Message :=
  match w with
  | ChatBubble who text | ChatErrorBubble who text =>
      Some {| role := who; content := text |}
  | _ => None
  end.

(** X17.  On the chat page, what a run shows is what it stores: the
    bubbles shown are, in order, the messages of the session after the
    run. *)
Theorem chat_page_shows_what_it_stores (chain : Chain) (kb : Stats)
    (messages : list Message) (input : option string) :
  map shown_message
      (snd (chat_page repr_str repr_float completion chain kb messages
              input))
  = map Some
      (fst (chat_page repr_str repr_float completion chain kb messages
              input)).
Proof.
  assert (H : map shown_message
                (map (fun m => ChatBubble (role m) (content m)) messages)
              = map Some messages).
  { rewrite map_map. apply map_ext. now intros []. }
  unfold chat_page.
  destruct input as [[|c p]|]; simpl; trivial.
  destruct (invoke completion chain _ _); simpl;
    rewrite !map_app, H; simpl; now rewrite <- app_assoc.
Qed.
End ConversationFacts.

Section EvaluationFacts.
Variable repr_str : string -> string.
Variable repr_float : Qc -> string.
Variable completion : ChatOpenAI -> list (string * string) -> string + string.
Variable text_lower : string -> string.

Lemma evaluate_case_row (chain : Chain) (kb : Stats) (test : string * string)
    (row : EvalRow) :
  evaluate_case repr_str repr_float completion text_lower chain kb test
  = inr row ->
  Question row = fst test /\ Expected row = snd test
  /\ (Status row = pass_text \/ Status row = check_text)
  /\ exists prediction,
       invoke completion chain
         (custom_retriever repr_str repr_float (fst test) kb) (fst test)
       = inr prediction
       /\ Model_Response row = first_chars 150 prediction ++ "..."
       /\ (Status row = pass_text
           <-> contains (text_lower (snd test)) (text_lower prediction)
               = true).
Proof.
  unfold evaluate_case.
  destruct (invoke completion chain _ _) as [e|prediction]; [discriminate|].
  intros E. injection E as <-. simpl.
  split; [reflexivity|]. split; [reflexivity|]. split.
  - destruct (contains _ _); auto.
  - exists prediction. split. { reflexivity. } split. { reflexivity. }
    destruct (contains _ _); split; intros H; trivial; discriminate H.
Qed.

(** The loop stops at the first case whose call raises. *)
Lemma evaluate_cases_spec (chain : Chain) (kb : Stats)
    (tests : list (string * string)) :
  match evaluate_cases repr_str repr_float completion text_lower chain kb
          tests with
  | inr rows =>
      Forall2 (fun test row =>
                 evaluate_case repr_str repr_float completion text_lower
                   chain kb test = inr row) tests rows
  | inl e =>
      exists before test after rows,
        tests = (before ++ test :: after)%list
        /\ Forall2 (fun test row =>
                      evaluate_case repr_str repr_float completion
                        text_lower chain kb test = inr row) before rows
        /\ evaluate_case repr_str repr_float completion text_lower
             chain kb test = inl e
  end.
Proof.
  induction tests as [|test rest IH]; simpl; [constructor|].
  destruct (evaluate_case _ _ _ _ _ _ test) as [e|row] eqn:E.
  - exists [], test, rest, []. repeat split; trivial.
  - destruct (evaluate_cases _ _ _ _ _ _ rest) as [e|rows].
    + destruct IH as (before & t & after & rows & -> & Hb & Ht).
      exists (test :: before), t, after, (row :: rows).
      repeat split; trivial. now constructor.
    + now constructor.
Qed.

Lemma count_passed_status (rows : list EvalRow) :
  Forall (fun r => Status r = pass_text \/ Status r = check_text) rows ->
  count_passed rows
  = List.length (filter (fun r => String.eqb (Status r) pass_text) rows).
Proof.
  unfold count_passed. induction 1 as [|r rows Hr _ IH]; simpl; trivial.
  destruct Hr as [-> | ->]; simpl; now rewrite IH.
Qed.

Lemma filter_length_bound {A : Type} (f : A -> bool) (l : list A) :
  (List.length (filter f l) <= List.length l)%nat.
Proof. induction l as [|a l IH]; simpl; [lia|]. destruct (f a); simpl; lia. Qed.

Lemma filter_length_all {A : Type} (f : A -> bool) (l : list A) :
  List.length (filter f l) = List.length l
  <-> Forall (fun a => f a = true) l.
Proof.
  induction l as [|a l IH]; simpl.
  - split; [constructor | reflexivity].
  - pose proof (filter_length_bound f l) as Hb.
    destruct (f a) eqn:E; simpl.
    + rewrite Forall_cons_iff, <- IH.
      split; [intros H; split; [exact E | lia] | intros [_ H]; lia].
    + split; [lia|]. intros H. apply Forall_cons_iff in H as [H _].
      congruence.
Qed.

Lemma accuracy_text_by_count (rows : list EvalRow) :
  List.length rows = 3%nat ->
  accuracy_text rows
  = nth (count_passed rows) ["0%"; "33%"; "67%"; "100%"] EmptyString
  /\ (count_passed rows <= 3)%nat.
Proof.
  intros Hlen. unfold accuracy_text. rewrite Hlen.
  assert (Hc : (count_passed rows <= 3)%nat).
  { unfold count_passed. rewrite <- Hlen. apply filter_length_bound. }
  split; trivial.
  destruct (count_passed rows) as [|[|[|[|c]]]]; try lia;
    vm_compute; reflexivity.
Qed.

Lemma accuracy_of_three (r1 r2 r3 : EvalRow) :
  Forall (fun r => Status r = pass_text \/ Status r = check_text)
    [r1; r2; r3] ->
  In (accuracy_text [r1; r2; r3]) ["0%"; "33%"; "67%"; "100%"]
  /\ (accuracy_text [r1; r2; r3] = "100%"
      <-> Forall (fun r => Status r = pass_text) [r1; r2; r3]).
Proof.
  intros H.
  destruct (accuracy_text_by_count [r1; r2; r3] eq_refl) as [-> Hc].
  assert (Hall : count_passed [r1; r2; r3] = 3%nat
                 <-> Forall (fun r => Status r = pass_text) [r1; r2; r3]).
  { rewrite (count_passed_status _ H).
    change 3%nat with (List.length [r1; r2; r3]).
    rewrite filter_length_all. split; apply Forall_impl; intros r;
      apply String.eqb_eq. }
  rewrite <- Hall.
  destruct (count_passed [r1; r2; r3]) as [|[|[|[|c]]]]; try lia; simpl;
    (split; [tauto | split; (discriminate || reflexivity)]).
Qed.

(** X18.  Pressing "Run Evaluation" shows either one error banner, with
    the text of the exception of the first test case whose call to the
    model raised, and then no table and no accuracy; or the three rows of
    the three test cases, in order, with an accuracy of 0%, 33%, 67% or
    100%, which is 100% exactly when every row passed.  Without the
    button pressed the page shows nothing. *)
Theorem evaluation_is_all_rows_or_one_error (chain : Chain) (kb : Stats) :
  evaluation_page repr_str repr_float completion text_lower chain kb false
  = []
  /\ ((exists e before test after,
         evaluation_page repr_str repr_float completion text_lower
           chain kb true
         = [ErrorBanner ("❌ Error: " ++ e)]
         /\ test_cases kb = (before ++ test :: after)%list
         /\ Forall (fun t => exists row,
                      evaluate_case repr_str repr_float completion
                        text_lower chain kb t = inr row) before
         /\ evaluate_case repr_str repr_float completion text_lower
              chain kb test = inl e)
      \/ (exists r1 r2 r3,
            evaluation_page repr_str repr_float completion text_lower
              chain kb true
            = [SuccessBanner "✅ Evaluation Complete!";
               ResultsTable [r1; r2; r3];
               Metric "Accuracy" (accuracy_text [r1; r2; r3])]
            /\ map Question [r1; r2; r3] = map fst (test_cases kb)
            /\ map Expected [r1; r2; r3] = map snd (test_cases kb)
            /\ In (accuracy_text [r1; r2; r3])
                  ["0%"; "33%"; "67%"; "100%"]
            /\ (accuracy_text [r1; r2; r3] = "100%"
                <-> Forall (fun r => Status r = pass_text) [r1; r2; r3]))).
Proof.
  split; [reflexivity|]. unfold evaluation_page.
  pose proof (evaluate_cases_spec chain kb (test_cases kb)) as H.
  destruct (evaluate_cases _ _ _ _ _ _ (test_cases kb)) as [e|rows].
  - left. destruct H as (before & test & after & rows & Ht & Hb & He).
    exists e, before, test, after.
    split; [reflexivity|]. split; [exact Ht|]. split; [|exact He].
    clear - Hb. induction Hb; constructor; eauto.
  - right. unfold test_cases in H.
    inversion H as [|t1 r1 l1 rows1 E1 H1]; subst.
    inversion H1 as [|t2 r2 l2 rows2 E2 H2]; subst.
    inversion H2 as [|t3 r3 l3 rows3 E3 H3]; subst.
    inversion H3; subst.
    apply evaluate_case_row in E1 as (Q1 & X1 & S1 & _).
    apply evaluate_case_row in E2 as (Q2 & X2 & S2 & _).
    apply evaluate_case_row in E3 as (Q3 & X3 & S3 & _).
    exists r1, r2, r3. split; [reflexivity|].
    split; [simpl; now rewrite Q1, Q2, Q3|].
    split; [simpl; now rewrite X1, X2, X3|].
    apply accuracy_of_three.
    apply Forall_cons; [exact S1|]. apply Forall_cons; [exact S2|].
    apply Forall_cons; [exact S3|]. apply Forall_nil.
Qed.
End EvaluationFacts.

(** ** The expected answers and the retrieved contexts *)

Lemma string_app_assoc (a b c : string) : (a ++ b) ++ c = a ++ (b ++ c).
Proof. induction a as [|x a IH]; simpl; [reflexivity | now rewrite IH]. Qed.

Lemma string_app_nil_r (a : string) : a ++ EmptyString = a.
Proof. induction a as [|x a IH]; simpl; [reflexivity | now rewrite IH]. Qed.

Lemma occurs_in_middle (pre a post : string) : occurs_in a (pre ++ a ++ post).
Proof. now exists pre, post. Qed.

Lemma round_half_even_le (x : Q) (bound : Z) :
  (x <= inject_Z bound)%Q -> (round_half_even x <= bound)%Z.
Proof.
  destruct x as [n d]. unfold round_half_even. cbn [Qnum Qden].
  intros H. unfold Qle in H. simpl in H.
  pose proof (Z.div_mod n (Zpos d) ltac:(discriminate)) as Hdm.
  pose proof (Z.mod_pos_bound n (Zpos d) ltac:(lia)) as Hm.
  assert (Hf : (n / Zpos d <= bound)%Z)
    by (apply Z.div_le_upper_bound; lia).
  assert (Hr : (0 < n mod Zpos d -> n / Zpos d < bound)%Z).
  { intros Hpos. apply Z.lt_nge. intros Hge.
    assert (Zpos d * bound <= Zpos d * (n / Zpos d))%Z
      by (apply Z.mul_le_mono_nonneg_l; lia).
    lia. }
  destruct (Z.compare_spec (2 * (n mod Zpos d)) (Zpos d)) as [E|L|G];
    [destruct (Z.even (n / Zpos d))| |]; lia.
Qed.

Lemma commas_below_1000 (n : nat) :
  (n < 1000)%nat -> commas (str_nat n) = str_nat n.
Proof.
  intros H.
  assert (Hall : forallb (fun k => String.eqb (commas (str_nat k)) (str_nat k))
                   (seq 0 1000) = true) by (vm_compute; reflexivity).
  rewrite forallb_forall in Hall.
  apply String.eqb_eq, Hall, in_seq. lia.
Qed.

(** Up to 999.99 in absolute value, the thousands separator changes
    nothing in a number printed with two decimals. *)
Lemma format_f_grouping_below_1000 (x : pyfloat) :
  (x = NaN
   \/ exists a, x = Finite a /\ (Qcabs a <= Q2Qc (99999 # 100))%Qc) ->
  format_f true 2 x = format_f false 2 x.
Proof.
  intros [->|(a & -> & Ha)]; [reflexivity|].
  unfold format_f. cbv zeta.
  set (scaled := round_half_even (Qabs a * inject_Z (10 ^ Z.of_nat 2))).
  assert (Hs : (scaled <= 99999)%Z).
  { apply round_half_even_le. unfold Qcle in Ha. cbn [this Qcabs] in Ha.
    unfold Q2Qc in Ha. cbn [this] in Ha. rewrite Qred_correct in Ha.
    change (inject_Z (10 ^ Z.of_nat 2)) with (inject_Z 100).
    apply Qle_trans with ((99999 # 100) * inject_Z 100)%Q;
      [apply Qmult_le_compat_r; [exact Ha | discriminate]
      | unfold Qle; simpl; lia]. }
  rewrite commas_below_1000; [reflexivity|].
  change (10 ^ Z.of_nat 2)%Z with 100%Z.
  assert (H : (scaled / 100 < 1000)%Z).
  { apply Z.div_lt_upper_bound; lia. }
  lia.
Qed.

Lemma occurs_in_refl (a : string) : occurs_in a a.
Proof. exists EmptyString, EmptyString. simpl. now rewrite string_app_nil_r. Qed.

Lemma occurs_in_app_l (a b c : string) : occurs_in a b -> occurs_in a (b ++ c).
Proof.
  intros (pre & post & ->). exists pre, (post ++ c).
  now rewrite !string_app_assoc.
Qed.

Lemma occurs_in_app_r (a b c : string) : occurs_in a c -> occurs_in a (b ++ c).
Proof.
  intros (pre & post & ->). exists (b ++ pre), post.
  now rewrite !string_app_assoc.
Qed.

Section AnswersFacts.
Variable repr_str : string -> string.
Variable repr_float : Qc -> string.

(** X19.  For the first two test cases of the evaluation, the expected
    answer always occurs in the context retrieved for the question.  For
    the third, whose expected answer is printed without thousands
    separator while the context line is printed with it, it occurs when
    the average transaction is NaN or at most 999.99 in absolute
    value. *)
Theorem expected_answers_occur_in_contexts (kb : Stats) :
  Forall (fun t => occurs_in (snd t)
                     (custom_retriever repr_str repr_float (fst t) kb))
    (firstn 2 (test_cases kb))
  /\ ((average_transaction kb = NaN
       \/ exists a, average_transaction kb = Finite a
                    /\ (Qcabs a <= Q2Qc (99999 # 100))%Qc) ->
      Forall (fun t => occurs_in (snd t)
                         (custom_retriever repr_str repr_float (fst t) kb))
        (test_cases kb)).
Proof.
  assert (H1 : occurs_in ("$" ++ format_f true 2 (total_revenue kb))
                 (custom_retriever repr_str repr_float
                    "What is the total revenue?" kb)).
  { change (custom_retriever repr_str repr_float
              "What is the total revenue?" kb)
      with ("Total Revenue: "
            ++ ("$" ++ format_f true 2 (total_revenue kb))).
    apply occurs_in_app_r, occurs_in_refl. }
  assert (H2 : occurs_in (best_selling_product kb)
                 (custom_retriever repr_str repr_float
                    "Which product sells the most?" kb)).
  { change (custom_retriever repr_str repr_float
              "Which product sells the most?" kb)
      with (("Best Selling Product: " ++ best_selling_product kb)
            ++ (newline ++ sales_by_product_line repr_str repr_float kb)).
    apply occurs_in_app_l, occurs_in_app_r, occurs_in_refl. }
  split.
  - simpl. repeat constructor; trivial.
  - intros Havg. simpl. repeat constructor; trivial. simpl.
    rewrite <- (format_f_grouping_below_1000 _ Havg).
    change (custom_retriever repr_str repr_float
              "What is the average transaction?" kb)
      with (("Average Transaction: "
             ++ ("$" ++ format_f true 2 (average_transaction kb)))
            ++ (newline ++ average_age_line kb ++ newline
                ++ average_satisfaction_line kb)).
    apply occurs_in_app_l, occurs_in_app_r, occurs_in_refl.
Qed.
End AnswersFacts.

(** ** The dashboard and the index *)


(** * Concrete runs of the script *)

Definition key_environ : Environ :=
  fun name => if String.eqb name "OPENAI_API_KEY" then Some "sk-test" else None.

Definition empty_key_environ : Environ :=
  fun name => if String.eqb name "OPENAI_API_KEY" then Some EmptyString else None.

(** A stand-in for the hosted model: it raises when the question mentions
    a quota and otherwise answers with the human message it was sent. *)
Definition echo_completion (llm : ChatOpenAI) (messages : list (string * string))
    : string + string :=
  match messages with
  | [_; (_, human)] =>
      if contains "quota" human then inl "quota exceeded"
      else inr ("Answer based on: " ++ human)
  | _ => inl "bad request"
  end.

Definition ask (text : string) : Interaction :=
  {| page := ChatAssistant; chat_input := Some text; run_evaluation := false |}.

Definition look_at_dashboard : Interaction :=
  {| page := Dashboard; chat_input := None; run_evaluation := false |}.

Definition press_evaluation : Interaction :=
  {| page := ModelEvaluation; chat_input := None; run_evaluation := true |}.

(** The state after one question on the scenario file. *)
Definition state_after_one_question : AppState :=
  fst (run_script repr_str_plain repr_float_tenths echo_completion lower
         (Some scenario_csv) key_environ fresh_state
         (ask "what is the total revenue?")).

(** An index whose average transaction is 1234.50. *)
Definition large_average_stats : Stats :=
  {| total_revenue := Finite (Q2Qc 9876);
     average_transaction := Finite (Q2Qc (2469 # 2));
     median_sales := Finite (Q2Qc 1200);
     std_dev := SqrtOf (Finite (Q2Qc 100));
     best_selling_product := "Widget A";
     sales_by_product := [("Widget A", Q2Qc 9876)];
     sales_by_region := [("East", Q2Qc 9876)];
     monthly_trend := [("2024-03", 9876%Z)];
     avg_customer_age := Finite (Q2Qc 40);
     avg_satisfaction := Finite (Q2Qc 4) |}.

(** With an average of 1234.50 the context says [$1,234.50] and the
    expected answer of the third test case is [$1234.50]. *)
Example expected_average_misses_the_context :
  nth 2 (test_cases large_average_stats) (EmptyString, EmptyString)
  = ("What is the average transaction?", "$1234.50")
  /\ contains "$1,234.50"
       (custom_retriever repr_str_plain repr_float_tenths
          "What is the average transaction?" large_average_stats) = true
  /\ contains "$1234.50"
       (custom_retriever repr_str_plain repr_float_tenths
          "What is the average transaction?" large_average_stats) = false.
Proof. vm_compute. repeat split. Qed.

Example chat_run_shows_error_reply :
  last (snd (run_script repr_str_plain repr_float_tenths echo_completion
               lower (Some scenario_csv) key_environ
               state_after_one_question (ask "quota?")))
       (ErrorBanner EmptyString)
  = ChatErrorBubble "assistant" "Error: quota exceeded".
Proof. vm_compute. reflexivity. Qed.


Lemma cached_data_hides_the_file_witness :
  exists r,
    data_cache state_after_one_question = Some r
    /\ run_script repr_str_plain repr_float_tenths echo_completion lower
         (Some scenario_csv) key_environ state_after_one_question
         look_at_dashboard
       = run_script repr_str_plain repr_float_tenths echo_completion lower
           None key_environ state_after_one_question look_at_dashboard.
Proof.
  assert (H : exists r, data_cache state_after_one_question = Some r)
    by (eexists; reflexivity).
  destruct H as [r H]. exists r. split; [exact H|].
  apply (cached_data_hides_the_file repr_str_plain repr_float_tenths
           echo_completion lower (Some scenario_csv) None key_environ
           state_after_one_question look_at_dashboard r H).
Defined.

Lemma session_chain_is_never_replaced_witness :
  exists chain,
    rag_chain (session state_after_one_question) = Some chain
    /\ api_key (chain_llm chain) = "sk-test"
    /\ rag_chain
         (session
            (fst (run_script repr_str_plain repr_float_tenths
                    echo_completion lower (Some scenario_csv)
                    (fun _ => Some "sk-other") state_after_one_question
                    look_at_dashboard)))
       = Some chain.
Proof.
  assert (H : exists chain,
            rag_chain (session state_after_one_question) = Some chain
            /\ api_key (chain_llm chain) = "sk-test")
    by (eexists; split; reflexivity).
  destruct H as (chain & H & Hk). exists chain.
  split; [exact H|]. split; [exact Hk|].
  now apply session_chain_is_never_replaced.
Defined.

Lemma conversation_witness :
  exists kb llm,
    get_llm key_environ = LlmReady llm
    /\ ui_messages
         (session
            (run_all repr_str_plain repr_float_tenths echo_completion lower
               (Some scenario_csv) key_environ fresh_state
               [ask "best product?"; look_at_dashboard; ask "quota?"]))
       = Some (greeting
               :: flat_map (exchange repr_str_plain repr_float_tenths
                              echo_completion (create_rag_chain llm) kb)
                    [ask "best product?"; look_at_dashboard; ask "quota?"]).
Proof.
  destruct (load_and_process_data (Some scenario_csv)) as [[df kb]|e] eqn:E;
    [|stopped_is_absurd E].
  exists kb. eexists. split; [reflexivity|].
  apply (conversation_is_the_greeting_and_the_exchanges repr_str_plain
           repr_float_tenths echo_completion lower (Some scenario_csv)
           key_environ df kb _ _ _ E eq_refl).
Defined.

Lemma expected_answers_occur_in_contexts_witness :
  (exists a, average_transaction eight_month_stats = Finite a
             /\ (Qcabs a <= Q2Qc (99999 # 100))%Qc)
  /\ Forall (fun t => occurs_in (snd t)
                        (custom_retriever repr_str_plain repr_float_tenths
                           (fst t) eight_month_stats))
       (test_cases eight_month_stats).
Proof.
  assert (H : exists a, average_transaction eight_month_stats = Finite a
                        /\ (Qcabs a <= Q2Qc (99999 # 100))%Qc).
  { eexists. split; [reflexivity|]. discriminate. }
  split; [exact H|].
  apply (proj2 (expected_answers_occur_in_contexts repr_str_plain
                  repr_float_tenths eight_month_stats)).
  now right.
Defined.

